(** * A shallow embedding of the job broker of [server.py]

    The broker keeps three process-wide objects, [JOBS], [PENDING] and
    [RESULTS], and exposes five request handlers.  The handlers are
    embedded as functions in a small state-and-exception monad over a
    record holding those three objects.  The configuration and the
    library primitives the source calls (HMAC-SHA256, the JSON encoder,
    the UUID generator) are the fields of the class [Env]; the clock
    reading is an input of the enqueue request.  A Python [str] is a
    [string]; a header value reaches the handler decoded as latin-1,
    one character per byte. *)

From Stdlib Require Import ZArith.
From Stdlib.Strings Require Import Ascii String Byte.
From stdpp Require Import gmap strings list fin_maps pretty.

Open Scope string_scope.
Open Scope list_scope.
#[local] Set Warnings "-register-all".

(** ** Values *)

(** JSON-able Python values, as far as request bodies hold them.  A
    [dict] keeps its insertion order, hence the association list. *)
Inductive json : Type :=
| JNull : json
| JBool : bool -> json
| JInt : Z -> json
| JStr : string -> json
| JList : list json -> json
| JDict : list (string * json) -> json.

(** Exceptions that leave a handler.  [HTTPException] carries the
    status code and the detail; the two others are uncaught Python
    exceptions, which the framework answers with status 500. *)
Inductive exn : Type :=
| HTTPException (status_code : Z) (detail : string)
| TypeError (msg : string)
| KeyError (key : string).

Definition status_of (e : exn) : Z :=
  match e with
  | HTTPException c _ => c
  | TypeError _ => 500
  | KeyError _ => 500
  end.

(** ** Request bodies (the pydantic models) *)

Record EnqueueReq : Type := mkEnqueueReq {
  enq_machine_id : string;
  enq_command : string;
  enq_params : list (string * json)
}.

Record PollReq : Type := mkPollReq {
  poll_machine_id : string;
  poll_capabilities : list string
}.

Record AckReq : Type := mkAckReq {
  ack_job_id : string;
  ack_status : string;
  ack_stdout : string;
  ack_stderr : string;
  ack_took_ms : Z
}.

(** [req.model_dump()]: the fields in declaration order. *)
Definition poll_model_dump (r : PollReq) : json :=
  JDict [("machine_id", JStr (poll_machine_id r));
         ("capabilities", JList (map JStr (poll_capabilities r)))].

Definition ack_model_dump (r : AckReq) : json :=
  JDict [("job_id", JStr (ack_job_id r));
         ("status", JStr (ack_status r));
         ("stdout", JStr (ack_stdout r));
         ("stderr", JStr (ack_stderr r));
         ("took_ms", JInt (ack_took_ms r))].

(** ** Jobs *)

(** The dictionary built by [enqueue]: keys [id], [machine_id],
    [command], [params], [ts], always all five. *)
Record Job : Type := mkJob {
  job_id : string;
  job_machine_id : string;
  job_command : string;
  job_params : list (string * json);
  job_ts : Z
}.

Definition job_json (j : Job) : json :=
  JDict [("id", JStr (job_id j));
         ("machine_id", JStr (job_machine_id j));
         ("command", JStr (job_command j));
         ("params", JDict (job_params j));
         ("ts", JInt (job_ts j))].

(** ** Broker state *)

(** [uuid_draws] counts the calls of [uuid.uuid4()] made so far; it is
    the only part of the generator's state the handlers depend on. *)
Record Broker : Type := mkBroker {
  JOBS : gmap string Job;
  PENDING : list string;
  RESULTS : gmap string AckReq;
  uuid_draws : nat
}.

Definition initial : Broker :=
  {| JOBS := ∅; PENDING := []; RESULTS := ∅; uuid_draws := 0 |}.

(** ** The handler monad: state passing with exceptions *)

Definition Handler (A : Type) : Type := Broker -> (exn + A) * Broker.

Definition hret {A} (a : A) : Handler A := fun s => (inr a, s).

Definition hbind {A B} (m : Handler A) (k : A -> Handler B) : Handler B :=
  fun s => match m s with
           | (inl e, s') => (inl e, s')
           | (inr a, s') => k a s'
           end.

Definition raise {A} (e : exn) : Handler A := fun s => (inl e, s).

Definition gets {A} (f : Broker -> A) : Handler A := fun s => (inr (f s), s).

Definition modify (f : Broker -> Broker) : Handler unit :=
  fun s => (inr tt, f s).

(** The handlers are written with stdpp's monad notation
    [x ← m; k] and [m;; k]. *)
#[export] Instance handler_ret : MRet Handler := @hret.
#[export] Instance handler_bind : MBind Handler :=
  fun A B k m => hbind m k.

(** ** Hexadecimal digests and ASCII strings *)

Definition hex_digit (n : N) : ascii :=
  match n with
  | 0 => "0" | 1 => "1" | 2 => "2" | 3 => "3" | 4 => "4"
  | 5 => "5" | 6 => "6" | 7 => "7" | 8 => "8" | 9 => "9"
  | 10 => "a" | 11 => "b" | 12 => "c" | 13 => "d" | 14 => "e"
  | _ => "f"
  end%N%char.

Fixpoint hexdigest (d : list byte) : string :=
  match d with
  | [] => EmptyString
  | b :: d' =>
      String (hex_digit (Byte.to_N b / 16))
        (String (hex_digit (Byte.to_N b mod 16)) (hexdigest d'))
  end.

(** A Python [str] is ASCII when every code point is below 128. *)
Definition ascii_char (c : ascii) : bool := (N_of_ascii c <? 128)%N.

Fixpoint is_ascii (s : string) : bool :=
  match s with
  | EmptyString => true
  | String c s' => ascii_char c && is_ascii s'
  end.

(** [hmac.compare_digest] on two [str]: a [TypeError] unless both are
    ASCII, otherwise their equality.  (Its running time, which is what
    distinguishes it from [==], is outside the model.) *)
Definition compare_digest (a b : string) : exn + bool :=
  if is_ascii a && is_ascii b then inr (String.eqb a b)
  else inl (TypeError "comparing strings with non-ASCII characters is not supported").

(** ** Responses *)

(** [{"ok": True, "job_id": jid, "sig": ...}] *)
Inductive EnqueueResp : Type :=
| EnqueueOk (job_id : string) (sig : string).

(** [{"job": job, "sig": ...}] or [{"job": None}] *)
Inductive PollResp : Type :=
| PollJob (job : Job) (sig : string)
| PollNone.

(** The stored result dictionary, or [{"found": False}] *)
Inductive ResultResp : Type :=
| ResultFound (r : AckReq)
| ResultNotFound.

Inductive request : Type :=
| ReqHealth
| ReqEnqueue (req : EnqueueReq) (x_admin_key : option string) (now : Z)
| ReqPoll (req : PollReq) (x_signature : string)
| ReqAck (req : AckReq) (x_signature : string)
| ReqResult (job_id : string) (x_admin_key : option string).

Inductive response : Type :=
| RespHealth (pending : nat)
| RespEnqueue (r : EnqueueResp)
| RespPoll (r : PollResp)
| RespAck
| RespResult (r : ResultResp).

(** ** In-place updates of the three global objects *)

Definition set_JOBS (f : gmap string Job -> gmap string Job) (s : Broker) : Broker :=
  {| JOBS := f (JOBS s); PENDING := PENDING s;
     RESULTS := RESULTS s; uuid_draws := uuid_draws s |}.

Definition set_PENDING (f : list string -> list string) (s : Broker) : Broker :=
  {| JOBS := JOBS s; PENDING := f (PENDING s);
     RESULTS := RESULTS s; uuid_draws := uuid_draws s |}.

Definition set_RESULTS (f : gmap string AckReq -> gmap string AckReq) (s : Broker) : Broker :=
  {| JOBS := JOBS s; PENDING := PENDING s;
     RESULTS := f (RESULTS s); uuid_draws := uuid_draws s |}.

(** The scan of [poll]: [for i, jid in enumerate(PENDING)], with
    [JOBS[jid]] raising [KeyError] on a missing key.  It yields the
    index and the job of the first entry whose job targets [m]. *)
Fixpoint scan (jobs : gmap string Job) (m : string) (i : nat) (l : list string)
  : exn + option (nat * Job) :=
  match l with
  | [] => inr None
  | jid :: l' =>
      match jobs !! jid with
      | None => inl (KeyError jid)
      | Some job =>
          if String.eqb (job_machine_id job) m then inr (Some (i, job))
          else scan jobs m (S i) l'
      end
  end.

(** The identifiers the successful enqueues of a run handed out. *)
Fixpoint enqueue_ids (os : list (exn + response)) : list string :=
  match os with
  | [] => []
  | inr (RespEnqueue (EnqueueOk jid _)) :: os' => jid :: enqueue_ids os'
  | _ :: os' => enqueue_ids os'
  end.

(** ** Environment of the process *)

(** The configuration read from the environment variables at start-up,
    and the library primitives the handlers call. *)
Class Env : Type := {
  SHARED_SECRET : string;
  ADMIN_API_KEY : string;
  ALLOWED_MACHINES : gset string;
  (** [hmac.new(key, msg, hashlib.sha256).digest()] *)
  hmac_sha256 : list byte -> list byte -> list byte;
  (** [json.dumps(v, separators=(',',':'))] *)
  json_dumps : json -> string;
  (** [uuid4 n] is the string of the [n]-th UUID the process draws. *)
  uuid4 : nat -> string
}.

Section Handlers.

Context {env : Env}.

(** [str.encode()], on the strings of this model.  For a [str] that
    UTF-8 cannot encode (a lone surrogate, as a variable read from
    bytes that are not UTF-8 gives) the call raises
    [UnicodeEncodeError]; that case is outside the model. *)
Definition encode (s : string) : list byte := list_byte_of_string s.

(** *** Message authenticator *)

Definition sign_payload (b : list byte) : string :=
  hexdigest (hmac_sha256 (encode SHARED_SECRET) b).

Definition verify (sig : string) (b : list byte) : Handler unit :=
  match compare_digest (sign_payload b) sig with
  | inl e => raise e
  | inr true => mret tt
  | inr false => raise (HTTPException 401 "Bad signature")
  end.

Definition require_admin (k : option string) : Handler unit :=
  if negb (String.eqb ADMIN_API_KEY EmptyString)
     && negb (bool_decide (k = Some ADMIN_API_KEY))
  then raise (HTTPException 401 "Bad admin key")
  else mret tt.

(** [ALLOWED_MACHINES and m not in ALLOWED_MACHINES] *)
Definition not_allowed (m : string) : bool :=
  negb (bool_decide (ALLOWED_MACHINES = ∅))
  && negb (bool_decide (m ∈ ALLOWED_MACHINES)).

(** [str(uuid.uuid4())] *)
Definition draw_uuid4 : Handler string :=
  fun s => (inr (uuid4 (uuid_draws s)),
            {| JOBS := JOBS s; PENDING := PENDING s;
               RESULTS := RESULTS s; uuid_draws := S (uuid_draws s) |}).

(** *** Request handlers *)

Definition health : Handler nat :=
  gets (fun s => length (PENDING s)).

Definition enqueue (req : EnqueueReq) (x_admin_key : option string) (now : Z)
  : Handler EnqueueResp :=
  require_admin x_admin_key;;
  if not_allowed (enq_machine_id req)
  then raise (HTTPException 403 "Machine not allowed")
  else
    jid ← draw_uuid4;
    let job := {| job_id := jid; job_machine_id := enq_machine_id req;
                  job_command := enq_command req;
                  job_params := enq_params req; job_ts := now |} in
    modify (set_JOBS (insert jid job));;
    modify (set_PENDING (fun l => l ++ [jid]));;
    let jb := encode (json_dumps (job_json job)) in
    mret (EnqueueOk jid (sign_payload jb)).

Definition poll (req : PollReq) (x_signature : string) : Handler PollResp :=
  let b := encode (json_dumps (poll_model_dump req)) in
  verify x_signature b;;
  if not_allowed (poll_machine_id req) then mret PollNone
  else
    s ← gets (fun s => s);
    match scan (JOBS s) (poll_machine_id req) 0 (PENDING s) with
    | inl e => raise e
    | inr (Some (i, job)) =>
        modify (set_PENDING (delete i));;
        let jb := encode (json_dumps (job_json job)) in
        mret (PollJob job (sign_payload jb))
    | inr None => mret PollNone
    end.

Definition ack (req : AckReq) (x_signature : string) : Handler unit :=
  let b := encode (json_dumps (ack_model_dump req)) in
  verify x_signature b;;
  modify (set_RESULTS (insert (ack_job_id req) req)).

Definition result (job_id : string) (x_admin_key : option string)
  : Handler ResultResp :=
  require_admin x_admin_key;;
  r ← gets (fun s => RESULTS s !! job_id);
  mret (match r with Some v => ResultFound v | None => ResultNotFound end).

(** *** The broker as a transition system *)

Definition handle (r : request) : Handler response :=
  match r with
  | ReqHealth => n ← health; mret (RespHealth n)
  | ReqEnqueue req k now => x ← enqueue req k now; mret (RespEnqueue x)
  | ReqPoll req sig => x ← poll req sig; mret (RespPoll x)
  | ReqAck req sig => ack req sig;; mret RespAck
  | ReqResult j k => x ← result j k; mret (RespResult x)
  end.

(** Serving a list of requests one after the other (the handlers are
    synchronous functions; one request is served at a time). *)
Fixpoint run (rs : list request) (s : Broker) : list (exn + response) * Broker :=
  match rs with
  | [] => ([], s)
  | r :: rs' =>
      let '(o, s') := handle r s in
      let '(os, s'') := run rs' s' in
      (o :: os, s'')
  end.

Inductive reachable : Broker -> Prop :=
| reachable_initial : reachable initial
| reachable_step s r : reachable s -> reachable (handle r s).2.

(** *** Vocabulary of the statements *)

(** The allow-list check lets machine [m] through. *)
Definition allowed (m : string) : Prop := not_allowed m = false.

(** The signature [sig] verifies over the bytes [b]. *)
Definition valid_signature (sig : string) (b : list byte) : Prop :=
  compare_digest (sign_payload b) sig = inr true.

Definition poll_body (req : PollReq) : list byte :=
  encode (json_dumps (poll_model_dump req)).

Definition ack_body (req : AckReq) : list byte :=
  encode (json_dumps (ack_model_dump req)).

Definition job_sig (job : Job) : string :=
  sign_payload (encode (json_dumps (job_json job))).

(** The admin key check lets the caller through. *)
Definition admin_ok (k : option string) : Prop :=
  ADMIN_API_KEY = EmptyString \/ k = Some ADMIN_API_KEY.

(** The job dictionary [enqueue] builds for identifier [jid]. *)
Definition new_job (req : EnqueueReq) (now : Z) (jid : string) : Job :=
  {| job_id := jid; job_machine_id := enq_machine_id req;
     job_command := enq_command req; job_params := enq_params req;
     job_ts := now |}.

(** The state a successful [enqueue] leaves behind. *)
Definition enqueued (req : EnqueueReq) (now : Z) (s : Broker) : Broker :=
  let jid := uuid4 (uuid_draws s) in
  {| JOBS := <[jid := new_job req now jid]> (JOBS s);
     PENDING := PENDING s ++ [jid];
     RESULTS := RESULTS s;
     uuid_draws := S (uuid_draws s) |}.

(** The backlog entry [jid] references a job whose target is [m]. *)
Definition targets (jobs : gmap string Job) (m jid : string) : Prop :=
  exists job, jobs !! jid = Some job /\ job_machine_id job = m.

(** Every backlog entry is a key of the job store. *)
Definition backlog_in_store (s : Broker) : Prop :=
  forall jid, jid ∈ PENDING s -> is_Some (JOBS s !! jid).

(** Every identifier in the store or the backlog was drawn from the
    generator, and a job is stored under its own identifier. *)
Definition ids_drawn (s : Broker) : Prop :=
  (forall jid, jid ∈ PENDING s -> exists n, n < uuid_draws s /\ jid = uuid4 n)
  /\ (forall jid job, JOBS s !! jid = Some job ->
        job_id job = jid /\ exists n, n < uuid_draws s /\ jid = uuid4 n).

(** *** What one request does to the state *)

Inductive effect (s : Broker) : Broker -> Prop :=
| effect_none : effect s s
| effect_enqueue req now : effect s (enqueued req now s)
| effect_claim pre jid post :
    PENDING s = pre ++ jid :: post ->
    effect s (set_PENDING (fun _ => pre ++ post) s)
| effect_ack req : effect s (set_RESULTS (insert (ack_job_id req) req) s).


End Handlers.

(** ** A small instance, for the examples *)

Definition quoted (s : string) : string :=
  String (ascii_of_nat 34) (s +:+ String (ascii_of_nat 34) EmptyString).

(** A compact JSON printer without string escapes, standing in for
    [json.dumps] in the examples. *)
Fixpoint compact_json (v : json) : string :=
  match v with
  | JNull => "null"
  | JBool b => if b then "true" else "false"
  | JInt z => pretty z
  | JStr s => quoted s
  | JList l =>
      "[" +:+
      (fix items (l : list json) : string :=
         match l with
         | [] => EmptyString
         | x :: l' =>
             compact_json x +:+
             match l' with [] => EmptyString | _ => "," +:+ items l' end
         end) l +:+ "]"
  | JDict d =>
      "{" +:+
      (fix items (d : list (string * json)) : string :=
         match d with
         | [] => EmptyString
         | (k, x) :: d' =>
             quoted k +:+ ":" +:+ compact_json x +:+
             match d' with [] => EmptyString | _ => "," +:+ items d' end
         end) d +:+ "}"
  end.

(** A keyed function standing in for HMAC-SHA256 in the examples. *)
Definition demo_mac (key msg : list byte) : list byte := key ++ msg.

Definition demo_env : Env :=
  {| SHARED_SECRET := "s3cret";
     ADMIN_API_KEY := "admin";
     ALLOWED_MACHINES := {["alpha"; "beta"]};
     hmac_sha256 := demo_mac;
     json_dumps := compact_json;
     uuid4 := fun n => "job-" +:+ pretty n |}.

Section ExampleData.

#[local] Existing Instance demo_env.

(** Requests and states of the examples. *)
Definition enq_alpha : EnqueueReq := mkEnqueueReq "alpha" "uptime" [("verbose", JBool true)].
Definition enq_beta : EnqueueReq := mkEnqueueReq "beta" "df" [].
Definition enq_gamma : EnqueueReq := mkEnqueueReq "gamma" "uptime" [].
Definition poll_alpha : PollReq := mkPollReq "alpha" ["shell"].
Definition poll_gamma : PollReq := mkPollReq "gamma" [].
Definition ack_first : AckReq := mkAckReq "job-0" "ok" "up 3 days" EmptyString 42.
Definition ack_second : AckReq := mkAckReq "job-0" "error" EmptyString "timeout" 9000.
Definition ack_negative : AckReq := mkAckReq "job-0" "ok" EmptyString EmptyString (-1).

Definition demo_poll_sig (r : PollReq) : string := sign_payload (poll_body r).

Definition demo_ack_sig (r : AckReq) : string := sign_payload (ack_body r).

(** Three accepted enqueues, for beta, alpha and alpha. *)
Definition demo_requests : list request :=
  [ReqEnqueue enq_beta (Some "admin") 100;
   ReqEnqueue enq_alpha (Some "admin") 101;
   ReqEnqueue enq_alpha (Some "admin") 102].

Definition demo_backlog : Broker := (run demo_requests initial).2.

End ExampleData.

(** ** Views of the backlog and of a run *)

(** The job the backlog entry [jid] references targets machine [m]
    (the test of the scan, as a boolean). *)
Definition targetsb (jobs : gmap string Job) (m jid : string) : bool :=
  match jobs !! jid with
  | Some job => String.eqb (job_machine_id job) m
  | None => false
  end.

(** The backlog entries of machine [m], in backlog order. *)
Definition pending_for (m : string) (s : Broker) : list string :=
  List.filter (targetsb (JOBS s) m) (PENDING s).

(** The identifiers of the jobs the polls of a run handed out. *)
Fixpoint polled_ids (os : list (exn + response)) : list string :=
  match os with
  | [] => []
  | inr (RespPoll (PollJob job _)) :: os' => job_id job :: polled_ids os'
  | _ :: os' => polled_ids os'
  end.

(** An instance with no admin key and no allow-list. *)
Definition open_env : Env :=
  {| SHARED_SECRET := "s3cret";
     ADMIN_API_KEY := EmptyString;
     ALLOWED_MACHINES := ∅;
     hmac_sha256 := demo_mac;
     json_dumps := compact_json;
     uuid4 := fun n => "job-" +:+ pretty n |}.

(** An instance whose UUID generator returns the same value at every
    draw; no admin key, no allow-list. *)
Definition repeating_env : Env :=
  {| SHARED_SECRET := "s3cret";
     ADMIN_API_KEY := EmptyString;
     ALLOWED_MACHINES := ∅;
     hmac_sha256 := demo_mac;
     json_dumps := compact_json;
     uuid4 := fun _ => "same-id" |}.

(** One accepted enqueue for beta, at the example instance and at the
    instance with the repeating generator. *)
Definition beta_backlog : Broker :=
  (handle (env := demo_env) (ReqEnqueue enq_beta (Some "admin") 100) initial).2.

Definition repeated_backlog : Broker :=
  (handle (env := repeating_env) (ReqEnqueue enq_beta None 100) initial).2.

(** ** Start-up: the module-level code *)

(** Strings here hold code points below 256.  Among those [str.strip()]
    removes 9 to 13, 28 to 32, 133 and 160. *)
Definition is_space (c : ascii) : bool :=
  let n := N_of_ascii c in
  ((9 <=? n) && (n <=? 13) || (28 <=? n) && (n <=? 32)
   || (n =? 133) || (n =? 160))%N.

Fixpoint lstrip (s : string) : string :=
  match s with
  | EmptyString => EmptyString
  | String c s' => if is_space c then lstrip s' else s
  end.

Fixpoint rstrip (s : string) : string :=
  match s with
  | EmptyString => EmptyString
  | String c s' =>
      match rstrip s' with
      | EmptyString => if is_space c then EmptyString else String c EmptyString
      | t => String c t
      end
  end.

(** [s.strip()] *)
Definition strip (s : string) : string := rstrip (lstrip s).

(** [s.split(sep)] for a one-character separator: the pieces between
    the separators, empty pieces included; one empty piece for the
    empty string. *)
Fixpoint split (sep : ascii) (s : string) : list string :=
  match s with
  | EmptyString => [EmptyString]
  | String c s' =>
      if Ascii.eqb c sep then EmptyString :: split sep s'
      else match split sep s' with
           | p :: ps => String c p :: ps
           | [] => [String c EmptyString]
           end
  end.

(** [set([m.strip() for m in v.split(",") if m.strip()])] *)
Definition parse_allowed_machines (v : string) : gset string :=
  list_to_set
    (List.filter (fun m => negb (String.eqb m EmptyString))
       (map strip (split "," v))).

(** [os.getenv(name, default)] *)
Definition getenv (environ : gmap string string) (name dflt : string) : string :=
  default dflt (environ !! name).

Inductive startup_error : Type :=
| RuntimeError (msg : string).

(** The assignments at the top of the module and the check of the
    secret: either the import fails, or the handlers run with the
    configuration read. *)
Definition startup (environ : gmap string string)
    (mac : list byte -> list byte -> list byte)
    (dumps : json -> string) (uuid : nat -> string) : startup_error + Env :=
  let secret := getenv environ "SHARED_SECRET" EmptyString in
  let admin := getenv environ "ADMIN_API_KEY" EmptyString in
  let machines :=
    parse_allowed_machines (getenv environ "ALLOWED_MACHINES" EmptyString) in
  if String.eqb secret EmptyString
  then inl (RuntimeError "SHARED_SECRET missing")
  else inr {| SHARED_SECRET := secret; ADMIN_API_KEY := admin;
              ALLOWED_MACHINES := machines; hmac_sha256 := mac;
              json_dumps := dumps; uuid4 := uuid |}.

(** Every character of [s] passes [f]. *)
Fixpoint all_chars (f : ascii -> bool) (s : string) : bool :=
  match s with
  | EmptyString => true
  | String c s' => f c && all_chars f s'
  end.

Definition comma_free (s : string) : bool :=
  all_chars (fun c => negb (Ascii.eqb c ",")) s.

(** A machine identifier as the allow-list can hold it. *)
Definition clean_id (m : string) : Prop :=
  m <> EmptyString /\ strip m = m /\ comma_free m = true.

Ltac run_handler :=
  unfold mbind, handler_bind, hbind, mret, handler_ret, hret,
    raise, gets, modify in *; simpl in *.

Section Properties.

Context {env : Env}.

(** *** The scan *)

Lemma scan_found jobs m i l k job :
  scan jobs m i l = inr (Some (k, job)) ->
  exists pre jid post,
    l = pre ++ jid :: post /\ k = i + length pre /\
    jobs !! jid = Some job /\ job_machine_id job = m /\
    forall j, j ∈ pre -> ~ targets jobs m j.
Proof.
  revert i. induction l as [|jid l IH]; intros i H; simpl in H; [discriminate|].
  destruct (jobs !! jid) as [jb|] eqn:Hjb; [|discriminate].
  destruct (String.eqb (job_machine_id jb) m) eqn:Hm.
  - inversion H; subst. apply String.eqb_eq in Hm.
    exists [], jid, l. repeat split; auto with lia.
    intros j Hj. inversion Hj.
  - apply IH in H as (pre & jid' & post & -> & -> & Hj & Hmj & Hpre).
    exists (jid :: pre), jid', post. simpl. repeat split; auto with lia.
    intros j Hin [job' [Hl Ht]].
    apply elem_of_cons in Hin as [->|Hin].
    + rewrite Hjb in Hl. inversion Hl; subst.
      apply String.eqb_neq in Hm. contradiction.
    + apply (Hpre j Hin). exists job'. auto.
Qed.

Lemma scan_none jobs m i l :
  scan jobs m i l = inr None -> forall j, j ∈ l -> ~ targets jobs m j.
Proof.
  revert i. induction l as [|jid l IH]; intros i H j Hin; [inversion Hin|].
  simpl in H.
  destruct (jobs !! jid) as [jb|] eqn:Hjb; [|discriminate].
  destruct (String.eqb (job_machine_id jb) m) eqn:Hm; [discriminate|].
  apply elem_of_cons in Hin as [->|Hin].
  - intros [job' [Hl Ht]]. rewrite Hjb in Hl. inversion Hl; subst.
    apply String.eqb_neq in Hm. contradiction.
  - eapply IH; eauto.
Qed.

Lemma scan_raises jobs m i l e :
  scan jobs m i l = inl e ->
  exists jid, e = KeyError jid /\ jid ∈ l /\ jobs !! jid = None.
Proof.
  revert i. induction l as [|jid l IH]; intros i H; simpl in H; [discriminate|].
  destruct (jobs !! jid) as [jb|] eqn:Hjb.
  - destruct (String.eqb (job_machine_id jb) m); [discriminate|].
    apply IH in H as (j & -> & Hin & Hn).
    exists j. repeat split; auto. apply elem_of_cons; auto.
  - inversion H; subst. exists jid. repeat split; auto. apply elem_of_cons; auto.
Qed.

Lemma scan_total jobs m i l :
  (forall jid, jid ∈ l -> is_Some (jobs !! jid)) ->
  exists r, scan jobs m i l = inr r.
Proof.
  intros Hwf. destruct (scan jobs m i l) as [e|r] eqn:H; [|eauto].
  apply scan_raises in H as (j & _ & Hin & Hn).
  apply Hwf in Hin as [x Hx]. congruence.
Qed.

Lemma pop_at_length (pre post : list string) jid :
  delete (length pre) (pre ++ jid :: post) = pre ++ post.
Proof. induction pre as [|x pre IH]; simpl; [reflexivity|]. now rewrite IH. Qed.

(** *** The authenticator *)

Lemma hex_digit_ascii n : ascii_char (hex_digit n) = true.
Proof.
  destruct n as [|p]; [reflexivity|].
  do 4 (destruct p as [p|p|]; try reflexivity).
Qed.

Lemma hexdigest_ascii d : is_ascii (hexdigest d) = true.
Proof.
  induction d as [|b d IH]; simpl; [reflexivity|].
  now rewrite !hex_digit_ascii, IH.
Qed.

Lemma verify_valid sig b s :
  valid_signature sig b -> verify sig b s = (inr tt, s).
Proof. unfold valid_signature, verify. intros ->. reflexivity. Qed.

Lemma verify_outcome sig b s :
  match verify sig b s with
  | (inr _, s') => valid_signature sig b /\ s' = s
  | (inl e, s') =>
      ~ valid_signature sig b /\ s' = s /\
      (e = HTTPException 401 "Bad signature" \/ exists msg, e = TypeError msg)
  end.
Proof.
  unfold verify, valid_signature.
  destruct (compare_digest (sign_payload b) sig) as [e|[|]] eqn:H; run_handler.
  - split; [discriminate|]. split; [reflexivity|].
    unfold compare_digest in H.
    destruct (is_ascii (sign_payload b) && is_ascii sig); inversion H; eauto.
  - auto.
  - split; [discriminate|]. auto.
Qed.

Lemma require_admin_ok k s :
  admin_ok k -> require_admin k s = (inr tt, s).
Proof.
  unfold admin_ok, require_admin. intros [->| ->].
  - reflexivity.
  - rewrite bool_decide_eq_true_2 by reflexivity.
    now rewrite andb_false_r.
Qed.

Lemma require_admin_refuses k s :
  ~ admin_ok k ->
  require_admin k s = (inl (HTTPException 401 "Bad admin key"), s).
Proof.
  unfold admin_ok, require_admin. intros H.
  destruct (String.eqb ADMIN_API_KEY EmptyString) eqn:E.
  - apply String.eqb_eq in E. tauto.
  - rewrite bool_decide_eq_false_2 by tauto. reflexivity.
Qed.

(** *** Poll *)

Lemma poll_unfold req sig s :
  valid_signature sig (poll_body req) ->
  allowed (poll_machine_id req) ->
  poll req sig s =
  match scan (JOBS s) (poll_machine_id req) 0 (PENDING s) with
  | inl e => (inl e, s)
  | inr (Some (i, job)) =>
      (inr (PollJob job (job_sig job)), set_PENDING (delete i) s)
  | inr None => (inr PollNone, s)
  end.
Proof.
  intros Hsig Hal. unfold poll. run_handler.
  fold (poll_body req). rewrite (verify_valid _ _ _ Hsig).
  unfold allowed in Hal. rewrite Hal.
  destruct (scan (JOBS s) (poll_machine_id req) 0 (PENDING s)) as [e|[[i job]|]];
    reflexivity.
Qed.

(** C1. A poll by machine [m] with a valid signature, [m] allowed,
    claims the first backlog entry whose job targets [m]: that job is
    returned, exactly that entry leaves the backlog, the entries
    before and after it stay in their order, and nothing else in the
    state moves; the job returned always targets [m]; with no matching
    entry the answer is none and the state is untouched. *)
Theorem poll_claims_first_for_machine req sig s :
  backlog_in_store s ->
  valid_signature sig (poll_body req) ->
  allowed (poll_machine_id req) ->
  ((exists pre jid post job,
      PENDING s = pre ++ jid :: post /\
      (forall j, j ∈ pre -> ~ targets (JOBS s) (poll_machine_id req) j) /\
      JOBS s !! jid = Some job /\
      job_machine_id job = poll_machine_id req /\
      (poll req sig s).1 = inr (PollJob job (job_sig job)) /\
      PENDING (poll req sig s).2 = pre ++ post /\
      JOBS (poll req sig s).2 = JOBS s /\
      RESULTS (poll req sig s).2 = RESULTS s /\
      uuid_draws (poll req sig s).2 = uuid_draws s)
   \/
   ((forall j, j ∈ PENDING s -> ~ targets (JOBS s) (poll_machine_id req) j) /\
    poll req sig s = (inr PollNone, s)))
  /\ (forall job sg, (poll req sig s).1 = inr (PollJob job sg) ->
        job_machine_id job = poll_machine_id req).
Proof.
  intros Hwf Hsig Hal. rewrite (poll_unfold _ _ _ Hsig Hal).
  destruct (scan_total (JOBS s) (poll_machine_id req) 0 (PENDING s) Hwf)
    as [[[i job]|] Hscan]; rewrite Hscan.
  - apply scan_found in Hscan as (pre & jid & post & HP & -> & Hj & Hm & Hpre).
    split.
    + left. exists pre, jid, post, job. simpl.
      rewrite HP at 2. rewrite pop_at_length. repeat split; auto.
    + simpl. intros job' sg H. now inversion H; subst.
  - split.
    + right. split; [|reflexivity]. eapply scan_none; eauto.
    + simpl. intros job' sg H. discriminate.
Qed.

Lemma poll_outcome req sig s :
  match poll req sig s with
  | (inl e, s') => s' = s
  | (inr PollNone, s') => s' = s
  | (inr (PollJob job sg), s') =>
      valid_signature sig (poll_body req) /\
      allowed (poll_machine_id req) /\
      sg = job_sig job /\
      exists i, scan (JOBS s) (poll_machine_id req) 0 (PENDING s)
                = inr (Some (i, job)) /\
                s' = set_PENDING (delete i) s
  end.
Proof.
  unfold poll. run_handler. fold (poll_body req).
  pose proof (verify_outcome sig (poll_body req) s) as Hv.
  destruct (verify sig (poll_body req) s) as [[e|[]] s'].
  - tauto.
  - destruct Hv as [Hv ->].
    destruct (not_allowed (poll_machine_id req)) eqn:Hal; [reflexivity|].
    destruct (scan (JOBS s) (poll_machine_id req) 0 (PENDING s))
      as [e|[[i job]|]] eqn:Hscan; try reflexivity.
    repeat split; eauto.
Qed.

(** *** Enqueue *)

Lemma enqueue_accepts req k now s :
  admin_ok k -> allowed (enq_machine_id req) ->
  enqueue req k now s =
    (inr (EnqueueOk (uuid4 (uuid_draws s))
            (job_sig (new_job req now (uuid4 (uuid_draws s))))),
     enqueued req now s).
Proof.
  intros Hk Hal. unfold enqueue. run_handler.
  rewrite (require_admin_ok _ _ Hk). unfold allowed in Hal. rewrite Hal.
  reflexivity.
Qed.

Lemma enqueue_outcome req k now s :
  match enqueue req k now s with
  | (inl e, s') =>
      s' = s /\
      ((~ admin_ok k /\ e = HTTPException 401 "Bad admin key") \/
       (admin_ok k /\ ~ allowed (enq_machine_id req) /\
        e = HTTPException 403 "Machine not allowed"))
  | (inr r, s') =>
      admin_ok k /\ allowed (enq_machine_id req) /\
      s' = enqueued req now s /\
      r = EnqueueOk (uuid4 (uuid_draws s))
            (job_sig (new_job req now (uuid4 (uuid_draws s))))
  end.
Proof.
  destruct (decide (ADMIN_API_KEY = EmptyString \/ k = Some ADMIN_API_KEY)) as [Hk|Hk].
  - destruct (not_allowed (enq_machine_id req)) eqn:Hal.
    + unfold enqueue. run_handler. rewrite (require_admin_ok _ _ Hk), Hal.
      split; [reflexivity|]. right. unfold allowed. rewrite Hal. auto.
    + rewrite (enqueue_accepts _ _ _ _ Hk Hal). auto.
  - unfold enqueue. run_handler. rewrite (require_admin_refuses _ _ Hk). auto.
Qed.

(** *** Ack and result *)

Lemma ack_accepts req sig s :
  valid_signature sig (ack_body req) ->
  ack req sig s = (inr tt, set_RESULTS (insert (ack_job_id req) req) s).
Proof.
  intros Hsig. unfold ack. run_handler. fold (ack_body req).
  now rewrite (verify_valid _ _ _ Hsig).
Qed.

Lemma ack_outcome req sig s :
  match ack req sig s with
  | (inl e, s') =>
      ~ valid_signature sig (ack_body req) /\ s' = s /\
      (e = HTTPException 401 "Bad signature" \/ exists msg, e = TypeError msg)
  | (inr _, s') =>
      valid_signature sig (ack_body req) /\
      s' = set_RESULTS (insert (ack_job_id req) req) s
  end.
Proof.
  unfold ack. run_handler. fold (ack_body req).
  pose proof (verify_outcome sig (ack_body req) s) as Hv.
  destruct (verify sig (ack_body req) s) as [[e|[]] s'].
  - exact Hv.
  - destruct Hv as [Hv ->]. auto.
Qed.

Lemma result_accepts j k s :
  admin_ok k ->
  result j k s =
    (inr (match RESULTS s !! j with
          | Some v => ResultFound v
          | None => ResultNotFound
          end), s).
Proof.
  intros Hk. unfold result. run_handler. now rewrite (require_admin_ok _ _ Hk).
Qed.

Lemma result_state j k s : (result j k s).2 = s.
Proof.
  unfold result. run_handler.
  unfold require_admin.
  destruct (negb (String.eqb ADMIN_API_KEY EmptyString)
            && negb (bool_decide (k = Some ADMIN_API_KEY))); reflexivity.
Qed.

Lemma handle_effect r s : effect s (handle r s).2.
Proof.
  destruct r as [|req k now|req sig|req sig|j k]; simpl.
  - constructor.
  - run_handler. pose proof (enqueue_outcome req k now s) as H.
    destruct (enqueue req k now s) as [[e|x] s']; simpl.
    + destruct H as [-> _]. constructor.
    + destruct H as (_ & _ & -> & _). constructor.
  - run_handler. pose proof (poll_outcome req sig s) as H.
    destruct (poll req sig s) as [[e|[job sg|]] s']; simpl; subst; try constructor.
    destruct H as (_ & _ & _ & i & Hscan & ->).
    apply scan_found in Hscan as (pre & jid & post & HP & -> & _).
    replace (set_PENDING (delete (0 + length pre)) s)
      with (set_PENDING (fun _ => pre ++ post) s).
    + now apply effect_claim with jid.
    + unfold set_PENDING. rewrite HP. simpl. now rewrite pop_at_length.
  - run_handler. pose proof (ack_outcome req sig s) as H.
    destruct (ack req sig s) as [[e|x] s']; simpl.
    + destruct H as (_ & -> & _). constructor.
    + destruct H as [_ ->]. constructor.
  - run_handler. pose proof (result_state j k s) as H.
    destruct (result j k s) as [[e|x] s']; simpl in *; subst; constructor.
Qed.

(** *** Invariants of the reachable states *)

Lemma backlog_in_store_effect s s' :
  effect s s' -> backlog_in_store s -> backlog_in_store s'.
Proof.
  unfold backlog_in_store.
  intros [|req now|pre jid post HP|req] Hwf j; simpl; auto.
  - intros [Hin| ->%list_elem_of_singleton]%elem_of_app.
    + destruct (decide (uuid4 (uuid_draws s) = j)) as [->|Hne].
      * rewrite lookup_insert_eq. eauto.
      * rewrite lookup_insert_ne by assumption. auto.
    + rewrite lookup_insert_eq. eauto.
  - intros Hin. apply Hwf. rewrite HP.
    apply elem_of_app in Hin as [Hin|Hin]; apply elem_of_app; auto.
    right. apply elem_of_cons. auto.
Qed.

Lemma ids_drawn_effect s s' :
  effect s s' -> ids_drawn s -> ids_drawn s'.
Proof.
  unfold ids_drawn.
  intros [|req now|pre jid post HP|req] [HP' HJ]; simpl; auto.
  - split.
    + intros j [Hin| ->%list_elem_of_singleton]%elem_of_app.
      * destruct (HP' j Hin) as (n & Hn & ->). exists n. split; [lia|reflexivity].
      * exists (uuid_draws s). split; [lia|reflexivity].
    + intros j job Hl.
      destruct (decide (uuid4 (uuid_draws s) = j)) as [<-|Hne].
      * rewrite lookup_insert_eq in Hl. inversion Hl; subst. simpl.
        split; [reflexivity|]. exists (uuid_draws s). split; [lia|reflexivity].
      * rewrite lookup_insert_ne in Hl by assumption.
        destruct (HJ j job Hl) as (Hid & n & Hn & ->).
        split; [assumption|]. exists n. split; [lia|reflexivity].
  - split; [|assumption].
    intros j Hin. apply HP'. rewrite HP.
    apply elem_of_app in Hin as [Hin|Hin]; apply elem_of_app; auto.
    right. apply elem_of_cons. auto.
Qed.

Lemma reachable_backlog_in_store s : reachable s -> backlog_in_store s.
Proof.
  induction 1 as [|s r _ IH].
  - intros j Hin. inversion Hin.
  - eapply backlog_in_store_effect; [apply handle_effect | exact IH].
Qed.

Lemma reachable_ids_drawn s : reachable s -> ids_drawn s.
Proof.
  induction 1 as [|s r _ IH].
  - split.
    + intros j Hin. inversion Hin.
    + intros j job Hl. simpl in Hl. rewrite lookup_empty in Hl. discriminate.
  - eapply ids_drawn_effect; [apply handle_effect | exact IH].
Qed.

(** C7. In every reachable state each identifier of the backlog is a
    key of the job store, so the lookup [JOBS[jid]] in the scan of a
    poll never raises [KeyError]. *)
Theorem reachable_backlog_entries_are_stored s :
  reachable s ->
  (forall jid, jid ∈ PENDING s -> exists job, JOBS s !! jid = Some job)
  /\ (forall m, exists r, scan (JOBS s) m 0 (PENDING s) = inr r)
  /\ (forall req sig key, (poll req sig s).1 <> inl (KeyError key)).
Proof.
  intros Hr. pose proof (reachable_backlog_in_store s Hr) as Hwf.
  split; [exact Hwf|]. split.
  - intros m. now apply scan_total.
  - intros req sig key Hp.
    unfold poll in Hp. run_handler. fold (poll_body req) in Hp.
    pose proof (verify_outcome sig (poll_body req) s) as Hv.
    destruct (verify sig (poll_body req) s) as [[e|[]] s'].
    + simpl in Hp. destruct Hv as (_ & _ & [->|[msg ->]]); discriminate.
    + destruct Hv as [_ ->].
      destruct (not_allowed (poll_machine_id req)); [discriminate|].
      destruct (scan_total (JOBS s) (poll_machine_id req) 0 (PENDING s) Hwf)
        as [[[i job]|] Hscan]; rewrite Hscan in Hp; discriminate.
Qed.

(** *** Frame properties *)

(** C10. An accepted ack for [j] writes the result entry of [j] and
    nothing else: job store, backlog and the other result entries are
    as before.  An accepted poll touches only the backlog, from which
    it removes at most one entry; job store and result map are as
    before, and the job handed out is the stored one, field for
    field. *)
Theorem ack_and_poll_frame areq asig preq psig s :
  valid_signature asig (ack_body areq) ->
  valid_signature psig (poll_body preq) ->
  (let s' := (ack areq asig s).2 in
   JOBS s' = JOBS s /\ PENDING s' = PENDING s /\
   uuid_draws s' = uuid_draws s /\
   RESULTS s' !! ack_job_id areq = Some areq /\
   forall j, j <> ack_job_id areq -> RESULTS s' !! j = RESULTS s !! j)
  /\
  (let s' := (poll preq psig s).2 in
   JOBS s' = JOBS s /\ RESULTS s' = RESULTS s /\
   uuid_draws s' = uuid_draws s /\
   match (poll preq psig s).1 with
   | inr (PollJob job sg) =>
       exists pre jid post,
         PENDING s = pre ++ jid :: post /\
         PENDING s' = pre ++ post /\
         JOBS s !! jid = Some job
   | _ => PENDING s' = PENDING s
   end).
Proof.
  intros Ha Hp. split.
  - rewrite (ack_accepts _ _ _ Ha). simpl.
    repeat split.
    + apply lookup_insert_eq.
    + intros j Hj. now rewrite lookup_insert_ne.
  - pose proof (poll_outcome preq psig s) as H.
    destruct (poll preq psig s) as [[e|[job sg|]] s']; simpl; subst; auto.
    destruct H as (_ & _ & _ & i & Hscan & ->). simpl.
    repeat split.
    apply scan_found in Hscan as (pre & jid & post & HP & -> & Hj & _).
    exists pre, jid, post. rewrite HP. simpl. now rewrite pop_at_length.
Qed.

(** *** Results *)

(** C6. After an accepted ack for [j], fetching the result of [j]
    with a good admin key returns the acked body; after a second
    accepted ack for [j] it returns the second body.  The job store
    plays no part: the state [s] is arbitrary. *)
Theorem ack_then_result req1 req2 sig1 sig2 k s :
  valid_signature sig1 (ack_body req1) ->
  valid_signature sig2 (ack_body req2) ->
  ack_job_id req2 = ack_job_id req1 ->
  admin_ok k ->
  let j := ack_job_id req1 in
  let s1 := (ack req1 sig1 s).2 in
  let s2 := (ack req2 sig2 s1).2 in
  (ack req1 sig1 s).1 = inr tt /\
  result j k s1 = (inr (ResultFound req1), s1) /\
  (ack req2 sig2 s1).1 = inr tt /\
  result j k s2 = (inr (ResultFound req2), s2).
Proof.
  intros H1 H2 Hj Hk. simpl.
  rewrite (ack_accepts _ _ s H1). simpl.
  rewrite (ack_accepts _ _ _ H2). simpl.
  rewrite !(result_accepts _ _ _ Hk). simpl.
  rewrite Hj, insert_insert_eq, !lookup_insert_eq. auto.
Qed.

(** *** Rejected signatures *)

Lemma bad_signature_no_change :
  forall s,
    (forall req sig, ~ valid_signature sig (poll_body req) ->
       exists e, poll req sig s = (inl e, s)) /\
    (forall req sig, ~ valid_signature sig (ack_body req) ->
       exists e, ack req sig s = (inl e, s)).
Proof.
  intros s. split; intros req sig Hsig.
  - unfold poll. run_handler. fold (poll_body req).
    pose proof (verify_outcome sig (poll_body req) s) as Hv.
    destruct (verify sig (poll_body req) s) as [[e|[]] s'].
    + destruct Hv as (_ & -> & _). eauto.
    + tauto.
  - pose proof (ack_outcome req sig s) as H.
    destruct (ack req sig s) as [[e|[]] s'].
    + destruct H as (_ & -> & _). eauto.
    + tauto.
Qed.


Lemma non_ascii_signature_raises sig b s :
  is_ascii sig = false ->
  verify sig b s =
    (inl (TypeError "comparing strings with non-ASCII characters is not supported"), s).
Proof.
  unfold verify, compare_digest. intros ->. now rewrite andb_false_r.
Qed.


(** Any tag other than the one [sign_payload] makes is refused. *)
Lemma other_tag_refused sig b s :
  sig <> sign_payload b -> exists e, verify sig b s = (inl e, s).
Proof.
  intros Hne. pose proof (verify_outcome sig b s) as H.
  destruct (verify sig b s) as [[e|[]] s'].
  - destruct H as (_ & -> & _). eauto.
  - destruct H as [H _]. unfold valid_signature, compare_digest in H.
    destruct (is_ascii (sign_payload b) && is_ascii sig); [|discriminate].
    inversion H as [He]. apply String.eqb_eq in He. congruence.
Qed.

(** C4 (the case the code misses). A signature with a non-ASCII
    character makes [hmac.compare_digest] raise [TypeError]: poll and
    ack then end in an uncaught exception, answered with status 500,
    not in the [HTTPException] with status 401.  The state is as
    before. *)
Theorem non_ascii_signature_is_not_a_401 preq areq s :
  let sig := String "233"%char EmptyString in
  let e := TypeError "comparing strings with non-ASCII characters is not supported" in
  poll preq sig s = (inl e, s) /\ ack areq sig s = (inl e, s) /\
  status_of e = 500%Z.
Proof.
  simpl. unfold poll, ack. run_handler.
  rewrite !non_ascii_signature_raises by reflexivity. auto.
Qed.

(** *** The allow-list *)

Lemma not_allowed_outside m :
  ALLOWED_MACHINES <> ∅ -> m ∉ ALLOWED_MACHINES -> not_allowed m = true.
Proof.
  intros Hne Hm. unfold not_allowed.
  now rewrite !bool_decide_eq_false_2.
Qed.

(** C5 (amended). With a non-empty allow-list, an enqueue for a
    machine outside it fails and leaves the whole state as it was, no
    identifier drawn: with status 403 when the admin key check
    passes, with status 401 when that check, which comes first,
    fails.  A poll with a valid signature by a machine outside the
    list answers none and leaves the state as it was, which is the
    answer of a poll by an allowed machine that finds no entry. *)
Theorem allow_list_refusals req k now preq psig s :
  ALLOWED_MACHINES <> ∅ ->
  enq_machine_id req ∉ ALLOWED_MACHINES ->
  poll_machine_id preq ∉ ALLOWED_MACHINES ->
  valid_signature psig (poll_body preq) ->
  (exists e, enqueue req k now s = (inl e, s) /\
     (admin_ok k -> e = HTTPException 403 "Machine not allowed") /\
     (~ admin_ok k -> e = HTTPException 401 "Bad admin key"))
  /\ poll preq psig s = (inr PollNone, s)
  /\ (forall preq' psig' s',
        valid_signature psig' (poll_body preq') ->
        allowed (poll_machine_id preq') ->
        backlog_in_store s' ->
        (forall j, j ∈ PENDING s' ->
                   ~ targets (JOBS s') (poll_machine_id preq') j) ->
        (poll preq' psig' s').1 = (poll preq psig s).1).
Proof.
  intros Hne Hm Hpm Hsig.
  pose proof (not_allowed_outside _ Hne Hm) as Hna.
  pose proof (not_allowed_outside _ Hne Hpm) as Hnp.
  assert (Hpoll : poll preq psig s = (inr PollNone, s)).
  { unfold poll. run_handler. fold (poll_body preq).
    now rewrite (verify_valid _ _ _ Hsig), Hnp. }
  split; [|split; [exact Hpoll|]].
  - pose proof (enqueue_outcome req k now s) as H.
    destruct (enqueue req k now s) as [[e|x] s'].
    + destruct H as [-> H]. exists e. split; [reflexivity|].
      destruct H as [[Hk ->]|(Hk & _ & ->)]; split; tauto.
    + destruct H as (_ & Hal & _). unfold allowed in Hal. congruence.
  - intros preq' psig' s' Hsig' Hal' Hwf' Hnone. rewrite Hpoll. simpl.
    rewrite (poll_unfold _ _ _ Hsig' Hal').
    destruct (scan_total (JOBS s') (poll_machine_id preq') 0 (PENDING s') Hwf')
      as [[[i job]|] Hscan]; rewrite Hscan; [|reflexivity].
    apply scan_found in Hscan as (pre & jid & post & HP & _ & Hj & Hmj & _).
    exfalso. apply (Hnone jid).
    + rewrite HP. apply elem_of_app. right. apply elem_of_cons. auto.
    + exists job. auto.
Qed.

(** *** Enqueue followed by poll *)

Lemma scan_skip jobs m i pre l :
  (forall j, j ∈ pre -> is_Some (jobs !! j) /\ ~ targets jobs m j) ->
  scan jobs m i (pre ++ l) = scan jobs m (i + length pre) l.
Proof.
  revert i. induction pre as [|x pre IH]; intros i H; simpl.
  - f_equal. lia.
  - destruct (H x) as [[jb Hjb] Hnt]; [apply elem_of_cons; auto|].
    rewrite Hjb.
    destruct (String.eqb (job_machine_id jb) m) eqn:Hm.
    + apply String.eqb_eq in Hm. exfalso. apply Hnt. exists jb. auto.
    + rewrite IH.
      * f_equal. lia.
      * intros j Hj. apply H. apply elem_of_cons. auto.
Qed.

Lemma drawn_id_is_fresh s :
  (forall a b, uuid4 a = uuid4 b -> a = b) ->
  ids_drawn s -> uuid4 (uuid_draws s) ∉ PENDING s.
Proof.
  intros Hinj [HP _] Hin. destruct (HP _ Hin) as (n & Hn & Heq).
  apply Hinj in Heq. lia.
Qed.

(** C2 (amended). From a reachable state with no backlog entry for
    machine [A], in which the identifier the enqueue draws is not
    already in the backlog, an accepted enqueue for [A] followed by a
    poll of [A] with a valid signature hands out exactly the job just
    built; the backlog is then what it was before the enqueue and does
    not hold that identifier; the next poll of [A] answers none. *)
Theorem enqueue_then_poll_twice req k now preq1 psig1 preq2 psig2 s :
  reachable s ->
  uuid4 (uuid_draws s) ∉ PENDING s ->
  admin_ok k ->
  allowed (enq_machine_id req) ->
  (forall j, j ∈ PENDING s -> ~ targets (JOBS s) (enq_machine_id req) j) ->
  poll_machine_id preq1 = enq_machine_id req ->
  poll_machine_id preq2 = enq_machine_id req ->
  valid_signature psig1 (poll_body preq1) ->
  valid_signature psig2 (poll_body preq2) ->
  let jid := uuid4 (uuid_draws s) in
  let job := new_job req now jid in
  let s1 := (enqueue req k now s).2 in
  let s2 := (poll preq1 psig1 s1).2 in
  (enqueue req k now s).1 = inr (EnqueueOk jid (job_sig job)) /\
  (poll preq1 psig1 s1).1 = inr (PollJob job (job_sig job)) /\
  PENDING s2 = PENDING s /\
  (jid ∉ PENDING s2) /\
  poll preq2 psig2 s2 = (inr PollNone, s2).
Proof.
  intros Hr Hfresh Hk Hal Hnone Hm1 Hm2 Hs1 Hs2 jid job s1 s2.
  pose proof (reachable_backlog_in_store s Hr) as Hwf.
  fold jid in Hfresh.
  assert (Hold : forall j, j ∈ PENDING s ->
            is_Some (<[jid:=job]> (JOBS s) !! j) /\
            ~ targets (<[jid:=job]> (JOBS s)) (enq_machine_id req) j).
  { intros j Hj. assert (jid <> j) by congruence.
    unfold targets. rewrite lookup_insert_ne by assumption.
    split; [now apply Hwf | now apply Hnone]. }
  assert (He : enqueue req k now s
               = (inr (EnqueueOk jid (job_sig job)), enqueued req now s))
    by now apply enqueue_accepts.
  assert (Hp1 : poll preq1 psig1 (enqueued req now s)
                = (inr (PollJob job (job_sig job)),
                   set_PENDING (fun _ => PENDING s) (enqueued req now s))).
  { rewrite poll_unfold by (rewrite ?Hm1; assumption).
    rewrite Hm1. unfold enqueued. simpl. fold jid job.
    rewrite scan_skip by exact Hold. simpl.
    rewrite lookup_insert_eq. simpl. rewrite String.eqb_refl.
    unfold set_PENDING. simpl.
    rewrite pop_at_length, app_nil_r. reflexivity. }
  subst s2 s1. rewrite He. simpl. rewrite Hp1. simpl.
  repeat split; auto.
  rewrite poll_unfold by (rewrite ?Hm2; assumption).
  rewrite Hm2. unfold enqueued. simpl. fold jid job.
  rewrite <- (app_nil_r (PENDING s)) at 1.
  rewrite scan_skip by exact Hold. reflexivity.
Qed.

(** *** Identifiers handed out *)

Lemma handle_draws r s :
  (uuid_draws (handle r s).2 = uuid_draws s /\
   enqueue_ids [(handle r s).1] = [])
  \/
  (uuid_draws (handle r s).2 = S (uuid_draws s) /\
   enqueue_ids [(handle r s).1] = [uuid4 (uuid_draws s)]).
Proof.
  destruct r as [|req k now|req sig|req sig|j k]; simpl.
  - left. run_handler. auto.
  - run_handler. pose proof (enqueue_outcome req k now s) as H.
    destruct (enqueue req k now s) as [[e|x] s']; simpl.
    + destruct H as [-> _]. auto.
    + destruct H as (_ & _ & -> & ->). auto.
  - left. run_handler. pose proof (poll_outcome req sig s) as H.
    destruct (poll req sig s) as [[e|[job sg|]] s']; simpl; subst; auto.
    destruct H as (_ & _ & _ & i & _ & ->). auto.
  - left. run_handler. pose proof (ack_outcome req sig s) as H.
    destruct (ack req sig s) as [[e|x] s']; simpl.
    + destruct H as (_ & -> & _). auto.
    + destruct H as [_ ->]. auto.
  - left. run_handler. pose proof (result_state j k s) as H.
    destruct (result j k s) as [[e|x] s']; simpl in *; subst; auto.
Qed.

Lemma run_enqueue_ids rs s :
  uuid_draws s <= uuid_draws (run rs s).2 /\
  enqueue_ids (run rs s).1 =
    uuid4 <$> seq (uuid_draws s) (uuid_draws (run rs s).2 - uuid_draws s).
Proof.
  revert s. induction rs as [|r rs IH]; intros s; simpl.
  - split; [lia|]. now rewrite Nat.sub_diag.
  - pose proof (handle_draws r s) as Hd.
    destruct (handle r s) as [o s1] eqn:Hh. simpl in Hd.
    specialize (IH s1). destruct (run rs s1) as [os s2]. simpl in *.
    destruct IH as [Hle IH].
    change (o :: os) with ([o] ++ os).
    destruct Hd as [[Hu Ho]|[Hu Ho]]; rewrite Hu in *.
    + split; [lia|].
      destruct o as [e|[n|[jid sg]|x| |x]]; simpl in *;
        try discriminate; exact IH.
    + split; [lia|].
      replace (uuid_draws s2 - uuid_draws s)
        with (S (uuid_draws s2 - S (uuid_draws s))) by lia.
      destruct o as [e|[n|[jid sg]|x| |x]]; simpl in *; try discriminate.
      inversion Ho; subst. now rewrite IH.
Qed.



(** *** Stored results *)

Lemma run_results rs s j r :
  RESULTS (run rs s).2 !! j = Some r ->
  RESULTS s !! j = Some r \/
  (ack_job_id r = j /\
   exists sig, ReqAck r sig ∈ rs /\ valid_signature sig (ack_body r)).
Proof.
  revert s. induction rs as [|q rs IH]; intros s; simpl; [auto|].
  destruct (handle q s) as [o s1] eqn:Hh.
  specialize (IH s1). destruct (run rs s1) as [os s2]. simpl in *.
  intros Hl. destruct (IH Hl) as [H1|(Hj & sig & Hin & Hv)].
  - assert (Hs1 : s1 = (handle q s).2) by now rewrite Hh.
    destruct q as [|req k now|req sig|req sig|j' k]; simpl in Hs1.
    + run_handler. subst. auto.
    + pose proof (handle_effect (ReqEnqueue req k now) s) as He.
      simpl in He. rewrite <- Hs1 in He.
      pose proof (enqueue_outcome req k now s) as H. run_handler.
      destruct (enqueue req k now s) as [[e|x] s']; simpl in *; subst.
      * destruct H as [-> _]. auto.
      * destruct H as (_ & _ & -> & _). auto.
    + pose proof (poll_outcome req sig s) as H. run_handler.
      destruct (poll req sig s) as [[e|[job sg|]] s']; simpl in *; subst; auto.
      destruct H as (_ & _ & _ & i & _ & ->). auto.
    + pose proof (ack_outcome req sig s) as H. run_handler.
      destruct (ack req sig s) as [[e|x] s']; simpl in *; subst.
      * destruct H as (_ & -> & _). auto.
      * destruct H as [Hv ->]. simpl in H1.
        destruct (decide (ack_job_id req = j)) as [Hj|Hj].
        -- rewrite Hj, lookup_insert_eq in H1. inversion H1; subst.
           right. split; [reflexivity|]. exists sig.
           split; [apply elem_of_cons; auto | assumption].
        -- rewrite lookup_insert_ne in H1 by assumption. auto.
    + pose proof (result_state j' k s) as H. run_handler.
      destruct (result j' k s) as [[e|x] s']; simpl in *; subst; auto.
  - right. split; [assumption|]. exists sig.
    split; [apply elem_of_cons; auto | assumption].
Qed.

(** C9 (amended). Every result found in the result map after any
    sequence of requests is, unchanged, the body of an ack of that
    sequence whose signature verified, stored under the identifier
    that body names; so its [took_ms] is the integer that ack
    carried, of either sign. *)
Theorem stored_result_is_an_accepted_ack rs j r :
  RESULTS (run rs initial).2 !! j = Some r ->
  ack_job_id r = j /\
  exists sig, ReqAck r sig ∈ rs /\ valid_signature sig (ack_body r).
Proof.
  intros H. apply run_results in H as [H|H]; [|exact H].
  simpl in H. rewrite lookup_empty in H. discriminate.
Qed.

Lemma run_reachable rs s : reachable s -> reachable (run rs s).2.
Proof.
  revert s. induction rs as [|r rs IH]; intros s Hs; simpl; [assumption|].
  pose proof (reachable_step s r Hs) as H1.
  destruct (handle r s) as [o s1]. simpl in H1.
  specialize (IH s1 H1). now destruct (run rs s1).
Qed.

End Properties.

(** ** The statements at the example instance *)

Section Examples.

#[local] Existing Instance demo_env.

Lemma demo_uuid4_injective (a b : nat) : uuid4 a = uuid4 b -> a = b.
Proof.
  simpl. intros H. apply (inj (String.app "job-")) in H.
  now apply (inj pretty) in H.
Qed.

Lemma demo_backlog_reachable : reachable demo_backlog.
Proof. apply run_reachable, reachable_initial. Qed.

Lemma demo_allow_list_not_empty : ALLOWED_MACHINES <> ∅.
Proof.
  apply (bool_decide_eq_false_1 (ALLOWED_MACHINES = ∅)). vm_compute. reflexivity.
Qed.

Lemma demo_gamma_outside : "gamma" ∉ ALLOWED_MACHINES.
Proof.
  apply (bool_decide_eq_false_1 ("gamma" ∈ ALLOWED_MACHINES)). vm_compute. reflexivity.
Qed.

Lemma poll_claims_first_for_machine_witness :
  let req := poll_alpha in
  let sig := demo_poll_sig poll_alpha in
  let s := demo_backlog in
  backlog_in_store s /\
  valid_signature sig (poll_body req) /\
  allowed (poll_machine_id req) /\
  ((exists pre jid post job,
      PENDING s = pre ++ jid :: post /\
      (forall j, j ∈ pre -> ~ targets (JOBS s) (poll_machine_id req) j) /\
      JOBS s !! jid = Some job /\
      job_machine_id job = poll_machine_id req /\
      (poll req sig s).1 = inr (PollJob job (job_sig job)) /\
      PENDING (poll req sig s).2 = pre ++ post /\
      JOBS (poll req sig s).2 = JOBS s /\
      RESULTS (poll req sig s).2 = RESULTS s /\
      uuid_draws (poll req sig s).2 = uuid_draws s)
   \/
   ((forall j, j ∈ PENDING s -> ~ targets (JOBS s) (poll_machine_id req) j) /\
    poll req sig s = (inr PollNone, s)))
  /\ (forall job sg, (poll req sig s).1 = inr (PollJob job sg) ->
        job_machine_id job = poll_machine_id req).
Proof.
  intros req sig s.
  assert (H1 : backlog_in_store s)
    by apply reachable_backlog_in_store, demo_backlog_reachable.
  assert (H2 : valid_signature sig (poll_body req)) by (vm_compute; reflexivity).
  assert (H3 : allowed (poll_machine_id req)) by (vm_compute; reflexivity).
  split; [exact H1|]. split; [exact H2|]. split; [exact H3|].
  exact (poll_claims_first_for_machine req sig s H1 H2 H3).
Defined.

(** With beta, alpha, alpha in the backlog, the poll of alpha takes
    the second entry and leaves the first and the third. *)
Example poll_alpha_takes_second_entry :
  PENDING demo_backlog = ["job-0"; "job-1"; "job-2"] /\
  (exists job sg,
     (poll poll_alpha (demo_poll_sig poll_alpha) demo_backlog).1
       = inr (PollJob job sg) /\ job_id job = "job-1") /\
  PENDING (poll poll_alpha (demo_poll_sig poll_alpha) demo_backlog).2
    = ["job-0"; "job-2"].
Proof.
  split; [vm_compute; reflexivity|]. split; [|vm_compute; reflexivity].
  eexists _, _. split; vm_compute; reflexivity.
Qed.

Lemma beta_backlog_reachable : reachable beta_backlog.
Proof. apply reachable_step, reachable_initial. Qed.

Lemma beta_backlog_has_no_alpha j :
  j ∈ PENDING beta_backlog ->
  ~ targets (JOBS beta_backlog) (enq_machine_id enq_alpha) j.
Proof.
  assert (HP : PENDING beta_backlog = ["job-0"]) by (vm_compute; reflexivity).
  assert (HJ : JOBS beta_backlog !! "job-0" = Some (mkJob "job-0" "beta" "df" [] 100))
    by (vm_compute; reflexivity).
  rewrite HP. intros ->%list_elem_of_singleton [job [Hl Hm]].
  rewrite HJ in Hl. inversion Hl; subst. discriminate.
Qed.

Lemma enqueue_then_poll_twice_witness :
  let s := beta_backlog in
  reachable s /\
  (uuid4 (uuid_draws s) ∉ PENDING s) /\
  admin_ok (Some "admin") /\
  allowed (enq_machine_id enq_alpha) /\
  valid_signature (demo_poll_sig poll_alpha) (poll_body poll_alpha) /\
  (let jid := uuid4 (uuid_draws s) in
   let job := new_job enq_alpha 7 jid in
   let s1 := (enqueue enq_alpha (Some "admin") 7 s).2 in
   let s2 := (poll poll_alpha (demo_poll_sig poll_alpha) s1).2 in
   (enqueue enq_alpha (Some "admin") 7 s).1
     = inr (EnqueueOk jid (job_sig job)) /\
   (poll poll_alpha (demo_poll_sig poll_alpha) s1).1
     = inr (PollJob job (job_sig job)) /\
   PENDING s2 = PENDING s /\
   (jid ∉ PENDING s2) /\
   poll poll_alpha (demo_poll_sig poll_alpha) s2 = (inr PollNone, s2)).
Proof.
  intros s.
  assert (H0 : uuid4 (uuid_draws s) ∉ PENDING s).
  { apply (bool_decide_eq_false_1 _). vm_compute. reflexivity. }
  assert (H1 : admin_ok (Some "admin")) by (right; reflexivity).
  assert (H2 : allowed (enq_machine_id enq_alpha)) by (vm_compute; reflexivity).
  assert (H3 : valid_signature (demo_poll_sig poll_alpha) (poll_body poll_alpha))
    by (vm_compute; reflexivity).
  split; [exact beta_backlog_reachable|].
  split; [exact H0|]. split; [exact H1|]. split; [exact H2|]. split; [exact H3|].
  exact (enqueue_then_poll_twice enq_alpha (Some "admin") 7
           poll_alpha (demo_poll_sig poll_alpha)
           poll_alpha (demo_poll_sig poll_alpha) s
           beta_backlog_reachable H0 H1 H2 beta_backlog_has_no_alpha
           eq_refl eq_refl H3 H3).
Defined.

(** C5 as stated fails: with an admin key configured and none
    supplied, an enqueue for a machine outside the non-empty
    allow-list ends with status 401, not 403. *)
Lemma enqueue_outside_allow_list_without_key_is_401 :
  ALLOWED_MACHINES <> ∅ /\
  (enq_machine_id enq_gamma ∉ ALLOWED_MACHINES) /\
  enqueue enq_gamma None 7 initial
    = (inl (HTTPException 401 "Bad admin key"), initial) /\
  status_of (HTTPException 401 "Bad admin key") <> 403%Z.
Proof.
  split; [exact demo_allow_list_not_empty|].
  split; [exact demo_gamma_outside|].
  split; [vm_compute; reflexivity | discriminate].
Qed.

Lemma allow_list_refusals_witness :
  ALLOWED_MACHINES <> ∅ /\
  (enq_machine_id enq_gamma ∉ ALLOWED_MACHINES) /\
  (poll_machine_id poll_gamma ∉ ALLOWED_MACHINES) /\
  valid_signature (demo_poll_sig poll_gamma) (poll_body poll_gamma) /\
  (exists e, enqueue enq_gamma (Some "admin") 7 demo_backlog = (inl e, demo_backlog) /\
     (admin_ok (Some "admin") -> e = HTTPException 403 "Machine not allowed") /\
     (~ admin_ok (Some "admin") -> e = HTTPException 401 "Bad admin key")) /\
  poll poll_gamma (demo_poll_sig poll_gamma) demo_backlog = (inr PollNone, demo_backlog).
Proof.
  assert (H : valid_signature (demo_poll_sig poll_gamma) (poll_body poll_gamma))
    by (vm_compute; reflexivity).
  split; [exact demo_allow_list_not_empty|].
  split; [exact demo_gamma_outside|].
  split; [exact demo_gamma_outside|].
  split; [exact H|].
  destruct (allow_list_refusals enq_gamma (Some "admin") 7 poll_gamma
              (demo_poll_sig poll_gamma) demo_backlog
              demo_allow_list_not_empty demo_gamma_outside demo_gamma_outside H)
    as (He & Hp & _).
  split; assumption.
Defined.

Lemma ack_then_result_witness :
  valid_signature (demo_ack_sig ack_first) (ack_body ack_first) /\
  valid_signature (demo_ack_sig ack_second) (ack_body ack_second) /\
  ack_job_id ack_second = ack_job_id ack_first /\
  admin_ok (Some "admin") /\
  (let j := ack_job_id ack_first in
   let s1 := (ack ack_first (demo_ack_sig ack_first) initial).2 in
   let s2 := (ack ack_second (demo_ack_sig ack_second) s1).2 in
   (ack ack_first (demo_ack_sig ack_first) initial).1 = inr tt /\
   result j (Some "admin") s1 = (inr (ResultFound ack_first), s1) /\
   (ack ack_second (demo_ack_sig ack_second) s1).1 = inr tt /\
   result j (Some "admin") s2 = (inr (ResultFound ack_second), s2)).
Proof.
  assert (H1 : valid_signature (demo_ack_sig ack_first) (ack_body ack_first))
    by (vm_compute; reflexivity).
  assert (H2 : valid_signature (demo_ack_sig ack_second) (ack_body ack_second))
    by (vm_compute; reflexivity).
  assert (H3 : admin_ok (Some "admin")) by (right; reflexivity).
  split; [exact H1|]. split; [exact H2|].
  split; [reflexivity|]. split; [exact H3|].
  exact (ack_then_result ack_first ack_second _ _ (Some "admin") initial
           H1 H2 eq_refl H3).
Defined.

Lemma reachable_backlog_entries_are_stored_witness :
  reachable demo_backlog /\
  (forall jid, jid ∈ PENDING demo_backlog ->
               exists job, JOBS demo_backlog !! jid = Some job) /\
  (forall m, exists r, scan (JOBS demo_backlog) m 0 (PENDING demo_backlog) = inr r) /\
  (forall req sig key, (poll req sig demo_backlog).1 <> inl (KeyError key)).
Proof.
  split; [exact demo_backlog_reachable|].
  exact (reachable_backlog_entries_are_stored demo_backlog demo_backlog_reachable).
Defined.

(** C9 as stated fails: an ack with [took_ms = -1] and a valid
    signature is accepted, and the state reached stores it. *)
Lemma negative_took_ms_is_stored :
  let s := (handle (ReqAck ack_negative (demo_ack_sig ack_negative)) initial).2 in
  reachable s /\
  RESULTS s !! "job-0" = Some ack_negative /\
  (ack_took_ms ack_negative < 0)%Z.
Proof.
  split; [apply reachable_step, reachable_initial|].
  split; [vm_compute; reflexivity | reflexivity].
Qed.

Lemma stored_result_is_an_accepted_ack_witness :
  let rs := [ReqAck ack_negative (demo_ack_sig ack_negative)] in
  RESULTS (run rs initial).2 !! "job-0" = Some ack_negative /\
  (ack_job_id ack_negative = "job-0" /\
   exists sig, ReqAck ack_negative sig ∈ rs /\
               valid_signature sig (ack_body ack_negative)).
Proof.
  assert (H : RESULTS (run [ReqAck ack_negative (demo_ack_sig ack_negative)]
                         initial).2 !! "job-0" = Some ack_negative)
    by (vm_compute; reflexivity).
  split; [exact H|].
  exact (stored_result_is_an_accepted_ack _ _ _ H).
Defined.

Lemma ack_and_poll_frame_witness :
  valid_signature (demo_ack_sig ack_first) (ack_body ack_first) /\
  valid_signature (demo_poll_sig poll_alpha) (poll_body poll_alpha) /\
  (let s' := (ack ack_first (demo_ack_sig ack_first) demo_backlog).2 in
   JOBS s' = JOBS demo_backlog /\ PENDING s' = PENDING demo_backlog /\
   uuid_draws s' = uuid_draws demo_backlog /\
   RESULTS s' !! ack_job_id ack_first = Some ack_first /\
   forall j, j <> ack_job_id ack_first ->
             RESULTS s' !! j = RESULTS demo_backlog !! j) /\
  (let s' := (poll poll_alpha (demo_poll_sig poll_alpha) demo_backlog).2 in
   JOBS s' = JOBS demo_backlog /\ RESULTS s' = RESULTS demo_backlog /\
   uuid_draws s' = uuid_draws demo_backlog).
Proof.
  assert (H1 : valid_signature (demo_ack_sig ack_first) (ack_body ack_first))
    by (vm_compute; reflexivity).
  assert (H2 : valid_signature (demo_poll_sig poll_alpha) (poll_body poll_alpha))
    by (vm_compute; reflexivity).
  split; [exact H1|]. split; [exact H2|].
  destruct (ack_and_poll_frame ack_first (demo_ack_sig ack_first)
              poll_alpha (demo_poll_sig poll_alpha) demo_backlog H1 H2)
    as [Ha (Hj & Hr & Hu & _)].
  split; [exact Ha|]. repeat split; assumption.
Defined.

End Examples.

(** ** A generator that repeats itself *)

Section RepeatingGenerator.

#[local] Existing Instance repeating_env.

(** C2 as stated fails: when the identifier drawn is already in the
    backlog (here under a job for beta), the enqueue for alpha
    rewrites the job stored under it, the backlog holds the identifier
    twice, the poll of alpha takes the first of the two entries and
    the identifier is still in the backlog; the second poll hands the
    job out again. *)
Lemma repeated_identifier_stays_in_backlog :
  let s := repeated_backlog in
  let sig := sign_payload (poll_body poll_alpha) in
  let s1 := (enqueue enq_alpha None 7 s).2 in
  let s2 := (poll poll_alpha sig s1).2 in
  reachable s /\
  (forall j, j ∈ PENDING s -> ~ targets (JOBS s) (enq_machine_id enq_alpha) j) /\
  valid_signature sig (poll_body poll_alpha) /\
  (exists sg, (enqueue enq_alpha None 7 s).1 = inr (EnqueueOk "same-id" sg)) /\
  (exists sg, (poll poll_alpha sig s1).1
              = inr (PollJob (new_job enq_alpha 7 "same-id") sg)) /\
  ("same-id" ∈ PENDING s2) /\
  (poll poll_alpha sig s2).1 <> inr PollNone.
Proof.
  intros s sig s1 s2.
  split; [apply reachable_step, reachable_initial|].
  split.
  { assert (HP : PENDING s = ["same-id"]) by (vm_compute; reflexivity).
    assert (HJ : JOBS s !! "same-id" = Some (mkJob "same-id" "beta" "df" [] 100))
      by (vm_compute; reflexivity).
    rewrite HP. intros j ->%list_elem_of_singleton [job [Hl Hm]].
    rewrite HJ in Hl. inversion Hl; subst. discriminate. }
  split; [vm_compute; reflexivity|].
  split; [eexists; vm_compute; reflexivity|].
  split; [eexists; vm_compute; reflexivity|].
  split.
  - assert (HP : PENDING s2 = ["same-id"]) by (vm_compute; reflexivity).
    rewrite HP. apply list_elem_of_singleton. reflexivity.
  - vm_compute. discriminate.
Qed.


End RepeatingGenerator.

(** ** Further properties of the handlers *)

Section Coverage.

Context {env : Env}.

(** *** Authentication and authorisation *)


(** X2. A request refused with an [HTTPException] (the 401 of the
    admin key check or of the signature check, the 403 of the
    allow-list) leaves the broker state exactly as it was, whatever
    the state and the request. *)
Theorem refused_request_changes_nothing r s c d :
  (handle r s).1 = inl (HTTPException c d) -> (handle r s).2 = s.
Proof.
  destruct r as [|req k now|req sig|req sig|j k]; simpl; run_handler.
  - discriminate.
  - pose proof (enqueue_outcome req k now s) as H.
    destruct (enqueue req k now s) as [[e'|x] s']; simpl; [|discriminate].
    now destruct H as [-> _].
  - pose proof (poll_outcome req sig s) as H.
    destruct (poll req sig s) as [[e'|x] s']; simpl; [|discriminate]. auto.
  - pose proof (ack_outcome req sig s) as H.
    destruct (ack req sig s) as [[e'|x] s']; simpl; [|discriminate].
    now destruct H as (_ & -> & _).
  - pose proof (result_state j k s) as H.
    destruct (result j k s) as [[e'|x] s']; simpl in *; auto.
Qed.

(** X3. The [HTTPException]s of the handlers, in any state: [enqueue]
    raises the 401 of the admin key check or the 403 of the
    allow-list, [poll] and [ack] the 401 of the signature check,
    [result] the 401 of the admin key check, [health] none. *)
Theorem http_errors_of_the_handlers r s c d :
  (handle r s).1 = inl (HTTPException c d) ->
  match r with
  | ReqHealth => False
  | ReqEnqueue _ _ _ =>
      (c = 401%Z /\ d = "Bad admin key") \/
      (c = 403%Z /\ d = "Machine not allowed")
  | ReqPoll _ _ | ReqAck _ _ => c = 401%Z /\ d = "Bad signature"
  | ReqResult _ _ => c = 401%Z /\ d = "Bad admin key"
  end.
Proof.
  destruct r as [|req k now|req sig|req sig|j k]; simpl; run_handler.
  - discriminate.
  - pose proof (enqueue_outcome req k now s) as H.
    destruct (enqueue req k now s) as [[e'|x] s']; simpl; [|discriminate].
    intros [= ->]. destruct H as [_ [[_ [= -> ->]]|(_ & _ & [= -> ->])]]; auto.
  - unfold poll. run_handler. fold (poll_body req).
    pose proof (verify_outcome sig (poll_body req) s) as Hv.
    destruct (verify sig (poll_body req) s) as [[e'|[]] s']; simpl.
    + intros [= ->]. destruct Hv as (_ & _ & [[= -> ->]|[msg [=]]]). auto.
    + destruct (not_allowed (poll_machine_id req)); [discriminate|].
      destruct (scan (JOBS s') (poll_machine_id req) 0 (PENDING s'))
        as [e'|[[i job]|]] eqn:Hscan; simpl; try discriminate.
      apply scan_raises in Hscan as (jid & -> & _). discriminate.
  - pose proof (ack_outcome req sig s) as H.
    destruct (ack req sig s) as [[e'|x] s']; simpl; [|discriminate].
    intros [= ->]. destruct H as (_ & _ & [[= -> ->]|[msg [=]]]). auto.
  - unfold result. run_handler. unfold require_admin.
    destruct (negb (String.eqb ADMIN_API_KEY EmptyString)
              && negb (bool_decide (k = Some ADMIN_API_KEY))); simpl.
    + intros [= -> ->]. auto.
    + discriminate.
Qed.

(** X4. With an admin key configured, [enqueue] and [result] called
    without that exact key (no header, or another value) both end in
    the 401 of the admin key check, before the allow-list is looked at
    and before anything is drawn, stored or read. *)
Theorem admin_key_required req now j k s :
  ADMIN_API_KEY <> EmptyString ->
  k <> Some ADMIN_API_KEY ->
  enqueue req k now s = (inl (HTTPException 401 "Bad admin key"), s) /\
  result j k s = (inl (HTTPException 401 "Bad admin key"), s).
Proof.
  intros Hc Hk.
  assert (Hno : ~ admin_ok k) by (unfold admin_ok; tauto).
  split; [unfold enqueue | unfold result]; run_handler;
    now rewrite (require_admin_refuses _ _ Hno).
Qed.

(** X5. With no admin key configured (the empty string), the admin
    key check stops nobody: no request, with or without the header,
    is ever answered with its 401. *)
Theorem no_admin_key_no_check r s :
  ADMIN_API_KEY = EmptyString ->
  (handle r s).1 <> inl (HTTPException 401 "Bad admin key").
Proof.
  intros Hc.
  assert (Hok : forall k, admin_ok k) by (intros k; left; exact Hc).
  destruct r as [|req k now|req sig|req sig|j k]; simpl; run_handler.
  - discriminate.
  - pose proof (enqueue_outcome req k now s) as H.
    destruct (enqueue req k now s) as [[e'|x] s']; simpl; [|discriminate].
    destruct H as [_ [[Hn _]|(_ & _ & ->)]]; [|discriminate].
    destruct (Hn (Hok k)).
  - pose proof (poll_outcome req sig s) as H.
    unfold poll in *. run_handler. fold (poll_body req) in *.
    pose proof (verify_outcome sig (poll_body req) s) as Hv.
    destruct (verify sig (poll_body req) s) as [[e'|[]] s']; simpl.
    + destruct Hv as (_ & _ & [->|[msg ->]]); discriminate.
    + destruct (not_allowed (poll_machine_id req)); [discriminate|].
      destruct (scan (JOBS s') (poll_machine_id req) 0 (PENDING s'))
        as [e'|[[i job]|]] eqn:Hscan; simpl; try discriminate.
      apply scan_raises in Hscan as (jid & -> & _). discriminate.
  - pose proof (ack_outcome req sig s) as H.
    destruct (ack req sig s) as [[e'|x] s']; simpl; [|discriminate].
    destruct H as (_ & _ & [->|[msg ->]]); discriminate.
  - rewrite (result_accepts _ _ _ (Hok k)). discriminate.
Qed.

(** *** Results *)

(** X6. Fetching the result of an identifier for which the requests
    served since start-up contain no ack returns the not-found marker,
    not an exception, and leaves the state as it is. *)
Theorem result_not_found_before_ack rs j k :
  admin_ok k ->
  (forall req sig, ReqAck req sig ∈ rs -> ack_job_id req <> j) ->
  let s := (run rs initial).2 in
  result j k s = (inr ResultNotFound, s).
Proof.
  intros Hk Hno s. rewrite (result_accepts _ _ _ Hk).
  destruct (RESULTS s !! j) as [r|] eqn:Hr; [|reflexivity].
  apply run_results in Hr as [Hr|(Hj & sig & Hin & _)].
  - simpl in Hr. rewrite lookup_empty in Hr. discriminate.
  - destruct (Hno r sig Hin Hj).
Qed.

(** *** Poll *)

(** X7. The [capabilities] of a poll play no part in the outcome: two
    polls of the same machine, each with a valid signature over its own
    body, give the same response and the same state. *)
Theorem capabilities_are_inert req1 sig1 req2 sig2 s :
  poll_machine_id req1 = poll_machine_id req2 ->
  valid_signature sig1 (poll_body req1) ->
  valid_signature sig2 (poll_body req2) ->
  poll req1 sig1 s = poll req2 sig2 s.
Proof.
  intros Hm H1 H2. unfold poll. run_handler.
  fold (poll_body req1) (poll_body req2).
  now rewrite (verify_valid _ _ _ H1), (verify_valid _ _ _ H2), Hm.
Qed.

(** X8. The signature returned with a job verifies over the compact
    JSON of that job: for [enqueue] the job is the one just stored
    under the returned identifier, for [poll] the one handed out. *)
Theorem returned_signature_verifies r s :
  match (handle r s).1 with
  | inr (RespEnqueue (EnqueueOk jid sg)) =>
      exists job, JOBS (handle r s).2 !! jid = Some job /\ job_id job = jid /\
                  valid_signature sg (encode (json_dumps (job_json job)))
  | inr (RespPoll (PollJob job sg)) =>
      valid_signature sg (encode (json_dumps (job_json job)))
  | _ => True
  end.
Proof.
  assert (Hsig : forall b, valid_signature (sign_payload b) b).
  { intros b. unfold valid_signature, compare_digest, sign_payload.
    now rewrite hexdigest_ascii, String.eqb_refl. }
  destruct r as [|req k now|req sig|req sig|j k]; simpl; run_handler.
  - exact I.
  - pose proof (enqueue_outcome req k now s) as H.
    destruct (enqueue req k now s) as [[e'|x] s']; simpl; [exact I|].
    destruct H as (_ & _ & -> & ->).
    eexists. split; [apply lookup_insert_eq|]. split; [reflexivity|apply Hsig].
  - pose proof (poll_outcome req sig s) as H.
    destruct (poll req sig s) as [[e'|[job sg|]] s']; simpl; try exact I.
    destruct H as (_ & _ & -> & _). apply Hsig.
  - destruct (ack req sig s) as [[e'|x] s']; exact I.
  - destruct (result j k s) as [[e'|x] s']; exact I.
Qed.

(** *** Queue depth *)

Lemma enqueue_ids_cons o os :
  enqueue_ids (o :: os) = enqueue_ids [o] ++ enqueue_ids os.
Proof. destruct o as [e|[n|[jid sg]|x| |x]]; reflexivity. Qed.

Lemma polled_ids_cons o os :
  polled_ids (o :: os) = polled_ids [o] ++ polled_ids os.
Proof. destruct o as [e|[n|x|[job sg|]| |x]]; reflexivity. Qed.

(** What one request does, together with what it hands out. *)
Lemma handle_polled r s :
  (polled_ids [(handle r s).1] = [] /\
   ((handle r s).2 = s \/
    (enqueue_ids [(handle r s).1] = [uuid4 (uuid_draws s)] /\
     exists req now, (handle r s).2 = enqueued req now s) \/
    (exists req, (handle r s).2 = set_RESULTS (insert (ack_job_id req) req) s)))
  \/
  (exists pre jid post job,
     PENDING s = pre ++ jid :: post /\ JOBS s !! jid = Some job /\
     polled_ids [(handle r s).1] = [job_id job] /\
     (handle r s).2 = set_PENDING (fun _ => pre ++ post) s).
Proof.
  destruct r as [|req k now|req sig|req sig|j k]; simpl; run_handler.
  - left. auto.
  - left. pose proof (enqueue_outcome req k now s) as H.
    destruct (enqueue req k now s) as [[e|x] s']; simpl.
    + destruct H as [-> _]. auto.
    + destruct H as (_ & _ & -> & ->). split; [reflexivity|]. right. left. eauto.
  - pose proof (poll_outcome req sig s) as H.
    destruct (poll req sig s) as [[e|[job sg|]] s']; simpl; subst; auto.
    right. destruct H as (_ & _ & _ & i & Hscan & ->).
    apply scan_found in Hscan as (pre & jid & post & HP & -> & Hj & _).
    exists pre, jid, post, job. repeat split; auto.
    unfold set_PENDING. rewrite HP. simpl. now rewrite pop_at_length.
  - left. pose proof (ack_outcome req sig s) as H.
    destruct (ack req sig s) as [[e|x] s']; simpl.
    + destruct H as (_ & -> & _). auto.
    + destruct H as [_ ->]. eauto.
  - left. pose proof (result_state j k s) as H.
    destruct (result j k s) as [[e|x] s']; simpl in *; subst; auto.
Qed.

Lemma run_cons r rs s :
  (run (r :: rs) s).1 = (handle r s).1 :: (run rs (handle r s).2).1 /\
  (run (r :: rs) s).2 = (run rs (handle r s).2).2.
Proof.
  simpl. destruct (handle r s) as [o s1]. simpl.
  now destruct (run rs s1) as [os s2].
Qed.

(** X9. [health] reports the length of the backlog and changes
    nothing.  One request moves that count as follows: an accepted
    enqueue raises it by one, a poll that hands out a job lowers it by
    one, and every other request that returns, as well as every
    request refused with an [HTTPException], leaves it as it was. *)
Theorem health_follows_the_backlog r s :
  let n := length (PENDING s) in
  let s' := (handle r s).2 in
  health s = (inr n, s) /\
  match (handle r s).1 with
  | inr (RespEnqueue _) => health s' = (inr (S n), s')
  | inr (RespPoll (PollJob _ _)) => 0 < n /\ health s' = (inr (n - 1), s')
  | inr _ => health s' = (inr n, s')
  | inl (HTTPException _ _) => health s' = (inr n, s')
  | inl _ => True
  end.
Proof.
  intros n s'. split; [reflexivity|]. subst s' n. unfold health. run_handler.
  destruct r as [|req k now|req sig|req sig|j k]; simpl; run_handler.
  - reflexivity.
  - pose proof (enqueue_outcome req k now s) as H.
    destruct (enqueue req k now s) as [[e'|x] s']; simpl.
    + destruct H as [-> _]. now destruct e'.
    + destruct H as (_ & _ & -> & _). unfold enqueued. simpl.
      rewrite length_app. simpl. do 2 f_equal. lia.
  - pose proof (poll_outcome req sig s) as H.
    destruct (poll req sig s) as [[e'|[job sg|]] s']; simpl; subst.
    + now destruct e'.
    + destruct H as (_ & _ & _ & i & Hscan & ->).
      apply scan_found in Hscan as (pre & jid & post & HP & -> & _).
      simpl. rewrite HP, pop_at_length, !length_app. simpl.
      split; [lia|]. do 2 f_equal. lia.
    + reflexivity.
  - pose proof (ack_outcome req sig s) as H.
    destruct (ack req sig s) as [[e'|x] s']; simpl.
    + destruct H as (_ & -> & _). now destruct e'.
    + destruct H as [_ ->]. reflexivity.
  - pose proof (result_state j k s) as H.
    destruct (result j k s) as [[e'|x] s']; simpl in *; subst;
      [now destruct e' | reflexivity].
Qed.

(** *** One queue per machine *)

Lemma targetsb_true jobs m j : targetsb jobs m j = true <-> targets jobs m j.
Proof.
  unfold targetsb, targets. split.
  - destruct (jobs !! j) as [job|]; [|discriminate].
    intros H%String.eqb_eq. eauto.
  - intros (job & -> & Hm). now apply String.eqb_eq.
Qed.

Lemma filter_none {A} (f : A -> bool) (l : list A) :
  (forall x, x ∈ l -> f x = false) -> List.filter f l = [].
Proof.
  induction l as [|x l IH]; intros H; simpl; [reflexivity|].
  rewrite (H x) by (apply elem_of_cons; auto).
  apply IH. intros y Hy. apply H, elem_of_cons. auto.
Qed.

Lemma not_targets_false jobs m j : ~ targets jobs m j -> targetsb jobs m j = false.
Proof.
  intros H. destruct (targetsb jobs m j) eqn:E; [|reflexivity].
  apply targetsb_true in E. contradiction.
Qed.

(** X10. A poll of an allowed machine [m] with a valid signature
    serves the machine's own queue: with no backlog entry for [m] it
    answers none and changes nothing; otherwise it hands out the job
    of the oldest entry for [m], the entries for [m] left are the
    later ones in their order, and the entries of every other machine
    are the same as before, in the same order. *)
Theorem poll_serves_the_machine_queue req sig s :
  backlog_in_store s ->
  valid_signature sig (poll_body req) ->
  allowed (poll_machine_id req) ->
  let m := poll_machine_id req in
  match pending_for m s with
  | [] => poll req sig s = (inr PollNone, s)
  | jid :: rest =>
      exists job,
        JOBS s !! jid = Some job /\
        (poll req sig s).1 = inr (PollJob job (job_sig job)) /\
        pending_for m (poll req sig s).2 = rest /\
        forall m', m' <> m ->
                   pending_for m' (poll req sig s).2 = pending_for m' s
  end.
Proof.
  intros Hwf Hsig Hal m. rewrite (poll_unfold _ _ _ Hsig Hal). fold m.
  unfold pending_for.
  destruct (scan_total (JOBS s) m 0 (PENDING s) Hwf) as [[[i job]|] Hscan];
    rewrite Hscan.
  - apply scan_found in Hscan as (pre & jid & post & HP & -> & Hj & Hm & Hpre).
    assert (Hpre' : List.filter (targetsb (JOBS s) m) pre = []).
    { apply filter_none. intros x Hx. apply not_targets_false. auto. }
    assert (Hjid : targetsb (JOBS s) m jid = true).
    { apply targetsb_true. exists job. auto. }
    rewrite HP, List.filter_app, Hpre'. simpl. rewrite Hjid.
    exists job. split; [assumption|]. split; [reflexivity|].
    rewrite HP, pop_at_length.
    split.
    + now rewrite List.filter_app, Hpre'.
    + intros m' Hm'. rewrite !List.filter_app. simpl.
      replace (targetsb (JOBS s) m' jid) with false; [reflexivity|].
      unfold targetsb. rewrite Hj. symmetry. apply String.eqb_neq. congruence.
  - rewrite filter_none; [reflexivity|].
    intros x Hx. apply not_targets_false. eapply scan_none; eauto.
Qed.

(** X11. From a reachable state, with a UUID generator that does not
    repeat itself, an accepted enqueue for machine [m] puts its new
    identifier behind the entries [m] already has in the backlog and
    leaves the entries of every other machine as they are. *)
Theorem enqueue_joins_the_machine_queue req k now s :
  reachable s ->
  (forall a b, uuid4 a = uuid4 b -> a = b) ->
  admin_ok k ->
  allowed (enq_machine_id req) ->
  let m := enq_machine_id req in
  let s' := (enqueue req k now s).2 in
  pending_for m s' = pending_for m s ++ [uuid4 (uuid_draws s)] /\
  forall m', m' <> m -> pending_for m' s' = pending_for m' s.
Proof.
  intros Hr Hinj Hk Hal m s'. subst s'.
  rewrite (enqueue_accepts _ _ _ _ Hk Hal). simpl.
  pose proof (drawn_id_is_fresh s Hinj (reachable_ids_drawn s Hr)) as Hfresh.
  set (jid := uuid4 (uuid_draws s)) in *.
  assert (Hext : forall m0,
             List.filter (targetsb (<[jid:=new_job req now jid]> (JOBS s)) m0)
               (PENDING s)
             = List.filter (targetsb (JOBS s) m0) (PENDING s)).
  { intros m0. apply List.filter_ext_in. intros j Hj.
    apply list_elem_of_In in Hj. unfold targetsb.
    rewrite lookup_insert_ne; [reflexivity|]. intros <-. contradiction. }
  unfold pending_for, enqueued. simpl. fold jid.
  split.
  - rewrite List.filter_app, Hext. simpl. unfold targetsb at 2.
    rewrite lookup_insert_eq. simpl. now rewrite String.eqb_refl.
  - intros m' Hm'. rewrite List.filter_app, Hext. simpl. unfold targetsb at 2.
    rewrite lookup_insert_eq. simpl.
    replace (String.eqb (enq_machine_id req) m') with false.
    + apply app_nil_r.
    + symmetry. apply String.eqb_neq. intros E. apply Hm'. subst m. auto.
Qed.

(** *** What is stored stays stored *)

Lemma effect_domains s s' :
  effect s s' ->
  dom (JOBS s) ⊆ dom (JOBS s') /\ dom (RESULTS s) ⊆ dom (RESULTS s').
Proof.
  intros [|req now|pre jid post HP|req]; simpl; split;
    try reflexivity; apply dom_insert_subseteq.
Qed.

(** X12. No request ever removes a job from the job store or a
    result from the result map: over any sequence of requests, from any
    state, the keys of both only grow. *)
Theorem nothing_is_ever_deleted rs s :
  dom (JOBS s) ⊆ dom (JOBS (run rs s).2) /\
  dom (RESULTS s) ⊆ dom (RESULTS (run rs s).2).
Proof.
  revert s. induction rs as [|r rs IH]; intros s; [split; reflexivity|].
  destruct (run_cons r rs s) as [_ ->].
  destruct (effect_domains s _ (handle_effect r s)) as [HJ HR].
  destruct (IH (handle r s).2) as [HJ' HR'].
  split; etransitivity; eassumption.
Qed.

Lemma step_keeps_job r s jid job :
  reachable s ->
  (forall a b, uuid4 a = uuid4 b -> a = b) ->
  JOBS s !! jid = Some job ->
  JOBS (handle r s).2 !! jid = Some job.
Proof.
  intros Hr Hinj Hj.
  destruct (reachable_ids_drawn s Hr) as [_ HJ].
  destruct (HJ jid job Hj) as (_ & n & Hn & ->).
  destruct (handle_effect r s) as [|req now|pre jid' post HP|req]; simpl; auto.
  rewrite lookup_insert_ne; [assumption|].
  intros E%Hinj. lia.
Qed.

(** X13. A stored job is never modified: from a reachable state, with
    a UUID generator that does not repeat itself, the job found under
    an identifier is found there, field for field, after any further
    sequence of requests; and it carries that identifier as its [id]. *)
Theorem stored_job_never_changes rs s jid job :
  reachable s ->
  (forall a b, uuid4 a = uuid4 b -> a = b) ->
  JOBS s !! jid = Some job ->
  JOBS (run rs s).2 !! jid = Some job /\ job_id job = jid.
Proof.
  intros Hr Hinj Hj. split.
  - revert s Hr Hj. induction rs as [|r rs IH]; intros s Hr Hj; [assumption|].
    destruct (run_cons r rs s) as [_ ->].
    apply IH; [now apply reachable_step | now apply step_keeps_job].
  - destruct (reachable_ids_drawn s Hr) as [_ HJ]. now destruct (HJ jid job Hj).
Qed.

(** *** A job is handed out once *)

Lemma step_handed_out r s h :
  reachable s ->
  (forall a b, uuid4 a = uuid4 b -> a = b) ->
  NoDup (PENDING s ++ h) ->
  (forall j, j ∈ h -> exists n, n < uuid_draws s /\ j = uuid4 n) ->
  NoDup (PENDING (handle r s).2 ++ (h ++ polled_ids [(handle r s).1])) /\
  (forall j, j ∈ h ++ polled_ids [(handle r s).1] ->
             exists n, n < uuid_draws (handle r s).2 /\ j = uuid4 n).
Proof.
  intros Hr Hinj Hnd Hh.
  destruct (reachable_ids_drawn s Hr) as [HP HJ].
  destruct (handle_polled r s)
    as [[-> Hs]|(pre & jid & post & job & HPe & Hj & -> & ->)].
  - rewrite app_nil_r.
    destruct Hs as [->|[[_ (req & now & ->)]|[req ->]]]; simpl; auto.
    split.
    + rewrite <- app_assoc. simpl.
      apply NoDup_app in Hnd as (Hnp & Hdis & Hnh).
      apply NoDup_app. repeat split; auto.
      * intros x Hx [->|Hin]%elem_of_cons.
        -- destruct (HP _ Hx) as (n & Hn & E). apply Hinj in E. lia.
        -- now apply (Hdis x).
      * apply NoDup_cons. split; [|assumption].
        intros Hin. destruct (Hh _ Hin) as (n & Hn & E). apply Hinj in E. lia.
    + intros j Hin. destruct (Hh j Hin) as (n & Hn & ->). exists n. split; [lia|auto].
  - destruct (HJ jid job Hj) as [-> _]. simpl.
    split.
    + rewrite HPe in Hnd.
      assert (Hperm : (pre ++ post) ++ h ++ [jid]
                      ≡ₚ (pre ++ jid :: post) ++ h) by solve_Permutation.
      now rewrite Hperm.
    + intros j [Hin| ->%list_elem_of_singleton]%elem_of_app; [auto|].
      apply HP. rewrite HPe. apply elem_of_app. right. apply elem_of_cons. auto.
Qed.

Lemma run_handed_out rs s h :
  reachable s ->
  (forall a b, uuid4 a = uuid4 b -> a = b) ->
  NoDup (PENDING s ++ h) ->
  (forall j, j ∈ h -> exists n, n < uuid_draws s /\ j = uuid4 n) ->
  NoDup (PENDING (run rs s).2 ++ (h ++ polled_ids (run rs s).1)) /\
  (forall j, j ∈ h ++ polled_ids (run rs s).1 ->
             exists n, n < uuid_draws (run rs s).2 /\ j = uuid4 n).
Proof.
  intros Hr Hinj. revert s h Hr.
  induction rs as [|r rs IH]; intros s h Hr Hnd Hh.
  - simpl. now rewrite app_nil_r.
  - destruct (run_cons r rs s) as [-> ->].
    destruct (step_handed_out r s h Hr Hinj Hnd Hh) as [Hnd' Hh'].
    rewrite polled_ids_cons, (app_assoc h).
    apply IH; [now apply reachable_step | assumption | assumption].
Qed.

(** X14. With a UUID generator that does not repeat itself, over any
    sequence of requests served since start-up no job is handed out
    twice: the identifiers of the jobs the polls returned are pairwise
    distinct, each was returned by an enqueue of the sequence, and none
    of them is in the backlog any more. *)
Theorem no_job_is_handed_out_twice rs :
  (forall a b, uuid4 a = uuid4 b -> a = b) ->
  let os := (run rs initial).1 in
  NoDup (polled_ids os) /\
  forall j, j ∈ polled_ids os ->
            j ∈ enqueue_ids os /\ j ∉ PENDING (run rs initial).2.
Proof.
  intros Hinj os.
  destruct (run_handed_out rs initial [] reachable_initial Hinj) as [Hnd Hdr].
  { simpl. constructor. }
  { intros j Hj. inversion Hj. }
  simpl in Hnd, Hdr. fold os in Hnd, Hdr.
  apply NoDup_app in Hnd as (_ & Hdis & Hnd).
  split; [exact Hnd|]. intros j Hj. split.
  - destruct (Hdr j Hj) as (n & Hn & ->).
    destruct (run_enqueue_ids rs initial) as [_ He]. fold os in He. rewrite He.
    apply list_elem_of_fmap_2. apply elem_of_seq. simpl in *. lia.
  - intros Hin. exact (Hdis j Hin Hj).
Qed.

End Coverage.

(** ** Properties of the start-up code *)

Section Startup.

Lemma split_not_nil sep s : split sep s <> [].
Proof.
  destruct s as [|c s]; simpl; [discriminate|].
  destruct (Ascii.eqb c sep); [discriminate|].
  destruct (split sep s); discriminate.
Qed.

Lemma lstrip_head s :
  lstrip s = EmptyString \/
  exists c t, lstrip s = String c t /\ is_space c = false.
Proof.
  induction s as [|c s IH]; simpl; [auto|].
  destruct (is_space c) eqn:E; [exact IH|]. right. eauto.
Qed.

Lemma rstrip_keeps_head c t :
  is_space c = false -> exists t', rstrip (String c t) = String c t'.
Proof. intros E. simpl. rewrite E. destruct (rstrip t); eauto. Qed.

Lemma rstrip_idempotent s : rstrip (rstrip s) = rstrip s.
Proof.
  induction s as [|c s IH]; simpl; [reflexivity|].
  destruct (rstrip s) as [|d t] eqn:E.
  - destruct (is_space c) eqn:Ec; simpl; [reflexivity|]. now rewrite Ec.
  - change (rstrip (String c (String d t)))
      with (match rstrip (String d t) with
            | EmptyString =>
                if is_space c then EmptyString else String c EmptyString
            | u => String c u
            end).
    now rewrite IH.
Qed.

Lemma strip_idempotent s : strip (strip s) = strip s.
Proof.
  unfold strip. destruct (lstrip_head s) as [->|(c & t & -> & Ec)]; [reflexivity|].
  destruct (rstrip_keeps_head c t Ec) as [t' Ht]. rewrite Ht.
  simpl lstrip. rewrite Ec, <- Ht. apply rstrip_idempotent.
Qed.

Lemma lstrip_all f s : all_chars f s = true -> all_chars f (lstrip s) = true.
Proof.
  induction s as [|c s IH]; simpl; [auto|].
  intros [Hc Hs]%andb_true_iff.
  destruct (is_space c); [auto|]. simpl. now rewrite Hc, Hs.
Qed.

Lemma rstrip_all f s : all_chars f s = true -> all_chars f (rstrip s) = true.
Proof.
  induction s as [|c s IH]; simpl; [auto|].
  intros [Hc Hs]%andb_true_iff. specialize (IH Hs).
  destruct (rstrip s) as [|d t].
  - destruct (is_space c); simpl; [reflexivity|]. now rewrite Hc.
  - simpl in *. now rewrite Hc, IH.
Qed.

Lemma split_pieces_comma_free s p : p ∈ split "," s -> comma_free p = true.
Proof.
  revert p. induction s as [|c s IH]; simpl; intros p Hp.
  - apply list_elem_of_singleton in Hp as ->. reflexivity.
  - destruct (Ascii.eqb c ",") eqn:Ec.
    + apply elem_of_cons in Hp as [->|Hp]; [reflexivity|auto].
    + pose proof (split_not_nil "," s) as Hne.
      destruct (split "," s) as [|q qs]; [contradiction|].
      apply elem_of_cons in Hp as [->|Hp].
      * unfold comma_free. simpl. rewrite Ec. simpl.
        apply IH, elem_of_cons. auto.
      * apply IH, elem_of_cons. auto.
Qed.

Lemma elem_of_parse v m :
  m ∈ parse_allowed_machines v <->
  m <> EmptyString /\ exists p, p ∈ split "," v /\ strip p = m.
Proof.
  unfold parse_allowed_machines.
  rewrite elem_of_list_to_set, list_elem_of_In, List.filter_In, List.in_map_iff.
  rewrite negb_true_iff, String.eqb_neq.
  split.
  - intros [(p & Hp & Hin) Hne]. split; [assumption|].
    exists p. split; [now apply list_elem_of_In | assumption].
  - intros [Hne (p & Hin & Hp)]. split; [|assumption].
    exists p. split; [assumption | now apply list_elem_of_In].
Qed.

(** X15. Every member of the allow-list read at start-up is a
    non-empty string without a comma and without white space at either
    end, whatever the variable holds; so a machine identifier that is
    empty, contains a comma, or begins or ends with white space is
    never on the list. *)
Theorem allow_list_members_are_clean v m :
  m ∈ parse_allowed_machines v -> clean_id m.
Proof.
  intros [Hne (p & Hin & <-)]%elem_of_parse.
  split; [assumption|]. split; [apply strip_idempotent|].
  unfold strip. apply rstrip_all, lstrip_all.
  exact (split_pieces_comma_free v p Hin).
Qed.

Lemma lstrip_empty s : lstrip s = EmptyString <-> all_chars is_space s = true.
Proof.
  induction s as [|c s IH]; simpl; [tauto|].
  destruct (is_space c); simpl; [exact IH|]. split; discriminate.
Qed.

Lemma rstrip_empty s : rstrip s = EmptyString <-> all_chars is_space s = true.
Proof.
  induction s as [|c s IH]; simpl; [tauto|].
  destruct (rstrip s) as [|d t].
  - destruct (is_space c); simpl; [tauto|]. split; discriminate.
  - split; [discriminate|]. intros [_ Hs]%andb_true_iff.
    apply IH in Hs. discriminate.
Qed.

Lemma lstrip_spaces s :
  all_chars is_space (lstrip s) = true <-> all_chars is_space s = true.
Proof.
  induction s as [|c s IH]; simpl; [tauto|].
  destruct (is_space c) eqn:E; simpl; [exact IH|]. now rewrite E.
Qed.

Lemma strip_empty s : strip s = EmptyString <-> all_chars is_space s = true.
Proof. unfold strip. now rewrite rstrip_empty, lstrip_spaces. Qed.

Lemma split_blank v :
  Forall (fun p => all_chars is_space p = true) (split "," v) <->
  all_chars (fun c => Ascii.eqb c "," || is_space c) v = true.
Proof.
  induction v as [|c v IH]; simpl.
  - split; [reflexivity|]. intros _. repeat constructor.
  - destruct (Ascii.eqb c ",") eqn:Ec; simpl.
    + rewrite Forall_cons. simpl. tauto.
    + pose proof (split_not_nil "," v) as Hne.
      destruct (split "," v) as [|q qs]; [contradiction|].
      rewrite Forall_cons in *. simpl. rewrite !andb_true_iff. tauto.
Qed.

Lemma parse_empty_iff v :
  parse_allowed_machines v = ∅ <->
  all_chars (fun c => Ascii.eqb c "," || is_space c) v = true.
Proof.
  rewrite <- split_blank, Forall_forall. split.
  - intros He p Hp. apply strip_empty.
    destruct (decide (strip p = EmptyString)) as [|Hne]; [assumption|].
    assert (Hin : strip p ∈ parse_allowed_machines v)
      by (apply elem_of_parse; eauto).
    rewrite He in Hin. inversion Hin.
  - intros Hall. apply set_eq. intros m. split; [|intros Hm; inversion Hm].
    intros [Hne (p & Hin & <-)]%elem_of_parse.
    destruct Hne. apply strip_empty. auto.
Qed.

(** X16. The allow-list read at start-up is empty, and the filtering
    by machine therefore off, exactly when the variable holds nothing
    but commas and white space (the empty string included). *)
Theorem allow_list_empty_iff_blank v :
  parse_allowed_machines v = ∅ <->
  all_chars (fun c => Ascii.eqb c "," || is_space c) v = true.
Proof. exact (parse_empty_iff v). Qed.

Lemma split_comma_free p : comma_free p = true -> split "," p = [p].
Proof.
  unfold comma_free. induction p as [|c p IH]; simpl; [reflexivity|].
  intros [Hc Hp]%andb_true_iff. apply negb_true_iff in Hc.
  now rewrite Hc, (IH Hp).
Qed.

Lemma split_append p rest :
  comma_free p = true ->
  split "," (String.append p (String "," rest)) = p :: split "," rest.
Proof.
  unfold comma_free. induction p as [|c p IH]; simpl; [reflexivity|].
  intros [Hc Hp]%andb_true_iff. apply negb_true_iff in Hc.
  now rewrite Hc, (IH Hp).
Qed.

Lemma split_concat l :
  l <> [] -> Forall (fun p => comma_free p = true) l ->
  split "," (String.concat "," l) = l.
Proof.
  induction l as [|p l IH]; [congruence|]. intros _ Hall.
  apply Forall_cons in Hall as [Hp Hl].
  destruct l as [|q l].
  - simpl. now apply split_comma_free.
  - change (String.concat "," (p :: q :: l))
      with (String.append p (String "," (String.concat "," (q :: l)))).
    rewrite (split_append _ _ Hp). f_equal. apply IH; [discriminate|assumption].
Qed.

(** X17. Writing clean machine identifiers (non-empty, no comma, no
    white space at either end) separated by commas and reading that
    string back at start-up gives exactly those identifiers. *)
Theorem allow_list_round_trip l :
  Forall clean_id l ->
  parse_allowed_machines (String.concat "," l) = list_to_set l.
Proof.
  intros Hl. destruct l as [|p l]; [reflexivity|].
  unfold parse_allowed_machines. rewrite split_concat; [|discriminate|].
  - f_equal. induction Hl as [|m ms (Hne & Hs & _) _ IH]; [reflexivity|].
    simpl. rewrite Hs. apply String.eqb_neq in Hne. rewrite Hne. simpl.
    now rewrite IH.
  - eapply Forall_impl; [exact Hl|]. now intros m (_ & _ & Hc).
Qed.

(** X18. The module loads only with a non-empty [SHARED_SECRET]: when
    the variable is unset or empty the start-up ends in the
    [RuntimeError]; otherwise the handlers run with that secret, with
    the admin key of the environment (empty when unset), and with the
    allow-list parsed from [ALLOWED_MACHINES] (empty when unset). *)
Theorem startup_needs_the_secret environ mac dumps uuid :
  match startup environ mac dumps uuid with
  | inl e =>
      e = RuntimeError "SHARED_SECRET missing" /\
      (environ !! "SHARED_SECRET" = None \/
       environ !! "SHARED_SECRET" = Some EmptyString)
  | inr e =>
      SHARED_SECRET <> EmptyString /\
      environ !! "SHARED_SECRET" = Some SHARED_SECRET /\
      ADMIN_API_KEY = default EmptyString (environ !! "ADMIN_API_KEY") /\
      ALLOWED_MACHINES =
        parse_allowed_machines
          (default EmptyString (environ !! "ALLOWED_MACHINES"))
  end.
Proof.
  unfold startup, getenv.
  destruct (environ !! "SHARED_SECRET") as [sec|] eqn:Hs; simpl.
  - destruct (String.eqb sec EmptyString) eqn:E.
    + apply String.eqb_eq in E. subst. auto.
    + apply String.eqb_neq in E. simpl. auto.
  - auto.
Qed.

(** X19. A broker started with [ALLOWED_MACHINES] unset, or holding
    only commas and white space, turns no machine away: every machine
    identifier passes the allow-list test of [poll] and [enqueue], and
    no enqueue ends in the 403. *)
Theorem blank_allow_list_allows_every_machine environ mac dumps uuid e :
  startup environ mac dumps uuid = inr e ->
  all_chars (fun c => Ascii.eqb c "," || is_space c)
    (getenv environ "ALLOWED_MACHINES" EmptyString) = true ->
  (forall m, allowed (env := e) m) /\
  (forall req k now s,
      (enqueue (env := e) req k now s).1
      <> inl (HTTPException 403 "Machine not allowed")).
Proof.
  intros Hst Hb. apply parse_empty_iff in Hb.
  assert (Hal : forall m, allowed (env := e) m).
  { intros m. unfold startup in Hst.
    destruct (String.eqb (getenv environ "SHARED_SECRET" EmptyString) EmptyString);
      [discriminate|].
    inversion Hst; subst. unfold allowed, not_allowed. simpl.
    rewrite Hb. now rewrite bool_decide_eq_true_2. }
  split; [exact Hal|].
  intros req k now s He.
  pose proof (enqueue_outcome (env := e) req k now s) as H.
  destruct (enqueue req k now s) as [[e'|x] s']; simpl in He; [|discriminate].
  inversion He; subst.
  destruct H as [_ [[_ H]|(_ & Hn & _)]]; [discriminate|].
  exact (Hn (Hal _)).
Qed.

End Startup.

(** ** The further properties at the example instance *)

Section CoverageExamples.

#[local] Existing Instance demo_env.

Lemma refused_request_changes_nothing_witness :
  let r := ReqEnqueue enq_gamma (Some "admin") 7 in
  (handle r demo_backlog).1 = inl (HTTPException 403 "Machine not allowed") /\
  (handle r demo_backlog).2 = demo_backlog.
Proof.
  intros r.
  assert (H : (handle r demo_backlog).1
              = inl (HTTPException 403 "Machine not allowed"))
    by (vm_compute; reflexivity).
  split; [exact H|].
  exact (refused_request_changes_nothing r demo_backlog _ _ H).
Defined.

Lemma http_errors_of_the_handlers_witness :
  let r := ReqPoll poll_alpha "0000" in
  (handle r demo_backlog).1 = inl (HTTPException 401 "Bad signature") /\
  (401 = 401 /\ "Bad signature" = "Bad signature")%Z.
Proof.
  intros r.
  assert (H : (handle r demo_backlog).1 = inl (HTTPException 401 "Bad signature"))
    by (vm_compute; reflexivity).
  split; [exact H|].
  exact (http_errors_of_the_handlers r demo_backlog _ _ H).
Defined.

Lemma admin_key_required_witness :
  ADMIN_API_KEY <> EmptyString /\
  None <> Some ADMIN_API_KEY /\
  enqueue enq_alpha None 7 initial
    = (inl (HTTPException 401 "Bad admin key"), initial) /\
  result "job-0" None initial
    = (inl (HTTPException 401 "Bad admin key"), initial).
Proof.
  assert (H1 : ADMIN_API_KEY <> EmptyString) by (simpl; discriminate).
  assert (H2 : None <> Some ADMIN_API_KEY) by discriminate.
  split; [exact H1|]. split; [exact H2|].
  exact (admin_key_required enq_alpha 7 "job-0" None initial H1 H2).
Defined.

Lemma no_admin_key_no_check_witness :
  ADMIN_API_KEY (Env := open_env) = EmptyString /\
  (handle (env := open_env) (ReqResult "job-0" None) initial).1
  <> inl (HTTPException 401 "Bad admin key").
Proof.
  split; [reflexivity|].
  exact (no_admin_key_no_check (env := open_env)
           (ReqResult "job-0" None) initial eq_refl).
Defined.

Lemma result_not_found_before_ack_witness :
  admin_ok (Some "admin") /\
  (forall req sig, ReqAck req sig ∈ demo_requests -> ack_job_id req <> "job-0") /\
  result "job-0" (Some "admin") demo_backlog = (inr ResultNotFound, demo_backlog).
Proof.
  assert (H1 : admin_ok (Some "admin")) by (right; reflexivity).
  assert (H2 : forall req sig, ReqAck req sig ∈ demo_requests ->
                               ack_job_id req <> "job-0").
  { intros req sig Hin. unfold demo_requests in Hin.
    repeat (apply elem_of_cons in Hin as [Hin|Hin]; [discriminate|]).
    inversion Hin. }
  split; [exact H1|]. split; [exact H2|].
  exact (result_not_found_before_ack demo_requests "job-0" (Some "admin") H1 H2).
Defined.

Lemma capabilities_are_inert_witness :
  let req2 := mkPollReq "alpha" [] in
  poll_machine_id poll_alpha = poll_machine_id req2 /\
  valid_signature (demo_poll_sig poll_alpha) (poll_body poll_alpha) /\
  valid_signature (demo_poll_sig req2) (poll_body req2) /\
  poll poll_alpha (demo_poll_sig poll_alpha) demo_backlog
  = poll req2 (demo_poll_sig req2) demo_backlog.
Proof.
  intros req2.
  assert (H1 : valid_signature (demo_poll_sig poll_alpha) (poll_body poll_alpha))
    by (vm_compute; reflexivity).
  assert (H2 : valid_signature (demo_poll_sig req2) (poll_body req2))
    by (vm_compute; reflexivity).
  split; [reflexivity|]. split; [exact H1|]. split; [exact H2|].
  exact (capabilities_are_inert poll_alpha _ req2 _ demo_backlog eq_refl H1 H2).
Defined.

Lemma poll_serves_the_machine_queue_witness :
  let req := poll_alpha in
  let sig := demo_poll_sig poll_alpha in
  let s := demo_backlog in
  backlog_in_store s /\
  valid_signature sig (poll_body req) /\
  allowed (poll_machine_id req) /\
  pending_for "alpha" s = ["job-1"; "job-2"] /\
  (let m := poll_machine_id req in
   match pending_for m s with
   | [] => poll req sig s = (inr PollNone, s)
   | jid :: rest =>
       exists job,
         JOBS s !! jid = Some job /\
         (poll req sig s).1 = inr (PollJob job (job_sig job)) /\
         pending_for m (poll req sig s).2 = rest /\
         forall m', m' <> m ->
                    pending_for m' (poll req sig s).2 = pending_for m' s
   end).
Proof.
  intros req sig s.
  assert (H1 : backlog_in_store s)
    by apply reachable_backlog_in_store, demo_backlog_reachable.
  assert (H2 : valid_signature sig (poll_body req)) by (vm_compute; reflexivity).
  assert (H3 : allowed (poll_machine_id req)) by (vm_compute; reflexivity).
  split; [exact H1|]. split; [exact H2|]. split; [exact H3|].
  split; [vm_compute; reflexivity|].
  exact (poll_serves_the_machine_queue req sig s H1 H2 H3).
Defined.

Lemma enqueue_joins_the_machine_queue_witness :
  reachable demo_backlog /\
  (forall a b, uuid4 a = uuid4 b -> a = b) /\
  admin_ok (Some "admin") /\
  allowed (enq_machine_id enq_alpha) /\
  (let m := enq_machine_id enq_alpha in
   let s' := (enqueue enq_alpha (Some "admin") 7 demo_backlog).2 in
   pending_for m s' = pending_for m demo_backlog ++ [uuid4 (uuid_draws demo_backlog)] /\
   forall m', m' <> m -> pending_for m' s' = pending_for m' demo_backlog).
Proof.
  assert (H1 : admin_ok (Some "admin")) by (right; reflexivity).
  assert (H2 : allowed (enq_machine_id enq_alpha)) by (vm_compute; reflexivity).
  split; [exact demo_backlog_reachable|].
  split; [exact demo_uuid4_injective|].
  split; [exact H1|]. split; [exact H2|].
  exact (enqueue_joins_the_machine_queue enq_alpha (Some "admin") 7 demo_backlog
           demo_backlog_reachable demo_uuid4_injective H1 H2).
Defined.

Lemma stored_job_never_changes_witness :
  let job := mkJob "job-0" "beta" "df" [] 100 in
  let rs := [ReqPoll poll_alpha (demo_poll_sig poll_alpha);
             ReqEnqueue enq_beta (Some "admin") 103] in
  reachable demo_backlog /\
  (forall a b, uuid4 a = uuid4 b -> a = b) /\
  JOBS demo_backlog !! "job-0" = Some job /\
  (JOBS (run rs demo_backlog).2 !! "job-0" = Some job /\ job_id job = "job-0").
Proof.
  intros job rs.
  assert (H : JOBS demo_backlog !! "job-0" = Some job) by (vm_compute; reflexivity).
  split; [exact demo_backlog_reachable|].
  split; [exact demo_uuid4_injective|]. split; [exact H|].
  exact (stored_job_never_changes rs demo_backlog "job-0" job
           demo_backlog_reachable demo_uuid4_injective H).
Defined.

Lemma no_job_is_handed_out_twice_witness :
  let rs := demo_requests ++ [ReqPoll poll_alpha (demo_poll_sig poll_alpha);
                              ReqPoll poll_alpha (demo_poll_sig poll_alpha)] in
  (forall a b, uuid4 a = uuid4 b -> a = b) /\
  polled_ids (run rs initial).1 = ["job-1"; "job-2"] /\
  (let os := (run rs initial).1 in
   NoDup (polled_ids os) /\
   forall j, j ∈ polled_ids os ->
             j ∈ enqueue_ids os /\ j ∉ PENDING (run rs initial).2).
Proof.
  intros rs. split; [exact demo_uuid4_injective|].
  split; [vm_compute; reflexivity|].
  exact (no_job_is_handed_out_twice rs demo_uuid4_injective).
Defined.

Lemma allow_list_members_are_clean_witness :
  ("alpha" ∈ parse_allowed_machines " alpha, beta ,, ") /\
  clean_id "alpha".
Proof.
  assert (H : "alpha" ∈ parse_allowed_machines " alpha, beta ,, ").
  { apply (bool_decide_eq_true_1 _). vm_compute. reflexivity. }
  split; [exact H|].
  exact (allow_list_members_are_clean _ _ H).
Defined.

Lemma allow_list_round_trip_witness :
  Forall clean_id ["alpha"; "beta"] /\
  parse_allowed_machines (String.concat "," ["alpha"; "beta"])
  = list_to_set ["alpha"; "beta"].
Proof.
  assert (H : Forall clean_id ["alpha"; "beta"]).
  { repeat constructor; discriminate. }
  split; [exact H|].
  exact (allow_list_round_trip _ H).
Defined.

Lemma blank_allow_list_allows_every_machine_witness :
  let environ : gmap string string :=
    <["ALLOWED_MACHINES" := " , "]> (<["SHARED_SECRET" := "s3cret"]> ∅) in
  startup environ demo_mac compact_json (fun n => "job-" +:+ pretty n)
    = inr open_env /\
  all_chars (fun c => Ascii.eqb c "," || is_space c)
    (getenv environ "ALLOWED_MACHINES" EmptyString) = true /\
  ((forall m, allowed (env := open_env) m) /\
   (forall req k now s,
       (enqueue (env := open_env) req k now s).1
       <> inl (HTTPException 403 "Machine not allowed"))).
Proof.
  intros environ.
  assert (H1 : startup environ demo_mac compact_json (fun n => "job-" +:+ pretty n)
               = inr open_env) by (vm_compute; reflexivity).
  assert (H2 : all_chars (fun c => Ascii.eqb c "," || is_space c)
                 (getenv environ "ALLOWED_MACHINES" EmptyString) = true)
    by (vm_compute; reflexivity).
  split; [exact H1|]. split; [exact H2|].
  exact (blank_allow_list_allows_every_machine environ _ _ _ open_env H1 H2).
Defined.

End CoverageExamples.
